(** * ImageUpload: the image list component of shadcn-image-form

    A shallow embedding of the component [ImageUpload] (lines 264-776 of
    src/components/image-form/image-crop-dialog.tsx; line numbers below
    refer to that file) and a verification of its intake pipeline and of
    its list operations.

    JavaScript values are modelled as follows.
    - [number]s that count bytes, images or milliseconds are integers ([Z]);
      array indices and lengths are [nat].
    - [string]s are Rocq strings; [toUpperCase] acts on the ASCII letters.
    - An [ImageItem[]] is a [list ImageItem]; a handler that would hand
      over an array holding anything else ([undefined], or an object with
      a [url] only: what lines 534-537, 592-595 and 565-567 build for an
      index that has no card) ends with the outcome [OutOfModel].
    - The handlers are written in a state-and-exception monad over the
      component instance: its [useState] cells, the file input, the
      chronological log of the calls made to [onChange] and [toast], and
      the number of identifiers generated so far.
    - [Date.now()], [Math.random()], [FileReader] and the two optional
      callbacks are supplied from outside, as the fields of [Browser] and
      [ImageUploadProps]. *)

From Stdlib Require Import ZArith Ascii String.
From stdpp Require Import base tactics option list strings pretty.
From Stdlib Require QArith.QArith_base.

Local Open Scope string_scope.
Local Open Scope Z_scope.
Local Open Scope list_scope.

(** ** JavaScript strings *)

Module Js.

(** [s.split(sep)] for a separator of one character. *)
Fixpoint split (sep : ascii) (s : string) : list string :=
  match s with
  | EmptyString => [EmptyString]
  | String c s' =>
      if Ascii.eqb c sep then EmptyString :: split sep s'
      else match split sep s' with
           | seg :: rest => String c seg :: rest
           | [] => [String c EmptyString]
           end
  end.

Definition upper_ascii (c : ascii) : ascii :=
  let n := nat_of_ascii c in
  if (97 <=? n)%nat && (n <=? 122)%nat then ascii_of_nat (n - 32) else c.

(** [s.toUpperCase()], on ASCII letters. *)
Fixpoint toUpperCase (s : string) : string :=
  match s with
  | EmptyString => EmptyString
  | String c s' => String (upper_ascii c) (toUpperCase s')
  end.

(** [l.join(sep)]. *)
Fixpoint join (sep : string) (l : list string) : string :=
  match l with
  | [] => EmptyString
  | [s] => s
  | s :: rest => s +:+ sep +:+ join sep rest
  end.

(** [s.substr(start, len)]. *)
Definition substr (start len : nat) (s : string) : string :=
  String.substring start len s.

(** [l.includes(x)] on strings: equality of the two strings. *)
Definition includes (l : list string) (x : string) : bool :=
  bool_decide (x ∈ l).

(** [String(n)] for an integer [n]. *)
Definition ofNumber (n : Z) : string := pretty n.

(** [(num / den).toFixed(0)] for integers [num] and [den > 0] whose
    quotient is below 10^21 in absolute value: the nearest integer, the
    larger one on a tie, after the sign.  (From 10^21 on [toFixed] prints
    the number in exponent notation; a size in bytes is below 2^53.) *)
Definition toFixed0 (num den : Z) : string :=
  let round (x : Z) := (2 * x + den) / (2 * den) in
  if num <? 0 then "-" +:+ pretty (round (- num)) else pretty (round num).

Definition newline : string := String (ascii_of_nat 10) EmptyString.

(** [a.splice(start, deleteCount, ...items)] for indices that are
    natural numbers: the removed elements and the array afterwards.
    [take] and [drop] clamp the way [splice] does. *)
Definition splice {A} (start deleteCount : nat) (items : list A)
    (a : list A) : list A * list A :=
  (take deleteCount (drop start a),
   take start a ++ items ++ drop (start + deleteCount) a).

(** [a.filter((_, i) => p(i))]: the index is passed along. *)
Fixpoint filter_index_from {A} (p : nat -> bool) (i : nat) (a : list A)
    : list A :=
  match a with
  | [] => []
  | x :: a' =>
      if p i then x :: filter_index_from p (S i) a'
      else filter_index_from p (S i) a'
  end.

Definition filter_index {A} (p : nat -> bool) (a : list A) : list A :=
  filter_index_from p 0 a.

End Js.

(** ** Data model *)

(** A [File] as far as the component looks at it. *)
Record File := mkFile {
  name : string;
  type : string;
  size : Z
}.

(** The binary result of a crop. *)
Inductive Blob := BlobOf (content : string).

(** [interface ImageItem]. *)
Record ImageItem := mkImageItem {
  id : string;
  url : string;
  file : option File
}.

Global Instance File_eq_dec : EqDecision File.
Proof. solve_decision. Defined.
Global Instance ImageItem_eq_dec : EqDecision ImageItem.
Proof. solve_decision. Defined.

(** What a [throw] or a rejected promise carries: an [Error] with its
    message, or any other value. *)
Inductive Thrown :=
| ErrorObject (message : string)
| NonError.

(** A promise that has settled. *)
Inductive Settled (A : Type) :=
| Fulfilled (a : A)
| Rejected (e : Thrown).
Arguments Fulfilled {A} a.
Arguments Rejected {A} e.

(** [interface ImageUploadProps], after the defaults of the parameter
    list have been applied.  [onChange] is an output: its calls are logged
    in the instance. *)
Record ImageUploadProps := mkProps {
  images : list ImageItem;
  maxImages : Z;
  allowedTypes : list string;
  maxFileSize : Z;
  enableReorder : bool;
  onUpload : option (File -> Settled string);
  onCropComplete : option (string -> Blob -> Settled string)
}.

Definition DEFAULT_ALLOWED_TYPES : list string :=
  ["image/jpeg"; "image/jpg"; "image/png"; "image/webp"; "image/gif"].
Definition DEFAULT_MAX_FILE_SIZE : Z := 5 * 1024 * 1024.

(** The props of [<ImageUpload images={..} onChange={..} />]. *)
Definition defaultProps (imgs : list ImageItem) : ImageUploadProps :=
  {| images := imgs;
     maxImages := 10;
     allowedTypes := DEFAULT_ALLOWED_TYPES;
     maxFileSize := DEFAULT_MAX_FILE_SIZE;
     enableReorder := true;
     onUpload := None;
     onCropComplete := None |}.

(** What the handlers take from the browser.  The k-th identifier is
    built from the k-th reading of the clock and of the random source;
    a [FileReader] yields the data URL or fires [onerror]. *)
Record Browser := mkBrowser {
  Date_now : nat -> Z;
  Math_random_toString36 : nat -> string;
  readFileAsDataURL : File -> option string;
  readBlobAsDataURL : Blob -> option string
}.

(** A call of [toast]. *)
Record Toast := mkToast {
  title : string;
  description : string;
  variant : option string
}.

Inductive Call :=
| CallToast (t : Toast)
| CallOnChange (newImages : list ImageItem).

(** The instance: the [useState] cells, the file input behind
    [fileInputRef] ([None]: the ref is empty) and what has been emitted. *)
Record Instance := mkInstance {
  uploading : bool;
  dragActive : bool;
  draggedIndex : option nat;
  dragOverIndex : option nat;
  fileInputValue : option string;
  calls : list Call;
  generated : nat
}.

(** ** The monad of the handlers *)

(** How a handler ends: it returns, it throws (an [async] handler: its
    promise is rejected), it waits for a promise that never settles, or it
    builds an array that is no [ImageItem[]]. *)
Inductive Outcome (A : Type) :=
| Returned (a : A)
| Threw (e : Thrown)
| Pending
| OutOfModel.
Arguments Returned {A} a.
Arguments Threw {A} e.
Arguments Pending {A}.
Arguments OutOfModel {A}.

Definition M (A : Type) : Type := Instance -> Outcome A * Instance.

Definition ret {A} (a : A) : M A := fun s => (Returned a, s).

Definition bind {A B} (m : M A) (k : A -> M B) : M B :=
  fun s =>
    match m s with
    | (Returned a, s') => k a s'
    | (Threw e, s') => (Threw e, s')
    | (Pending, s') => (Pending, s')
    | (OutOfModel, s') => (OutOfModel, s')
    end.

Definition throw {A} (e : Thrown) : M A := fun s => (Threw e, s).
Definition never {A} : M A := fun s => (Pending, s).
Definition outOfModel {A} : M A := fun s => (OutOfModel, s).

(** [await p] for a promise that settles. *)
Definition await {A} (p : Settled A) : M A :=
  match p with
  | Fulfilled a => ret a
  | Rejected e => throw e
  end.

(** [try { body } catch (e) { handler }]. *)
Definition catch {A} (body : M A) (handler : Thrown -> M A) : M A :=
  fun s =>
    match body s with
    | (Threw e, s') => handler e s'
    | r => r
    end.

(** [try { body } finally { fin }]: [fin] runs when [body] returns or
    throws, and the outcome of [body] stands unless [fin] ends otherwise. *)
Definition finally {A} (body : M A) (fin : M unit) : M A :=
  fun s =>
    match body s with
    | (Returned a, s') =>
        match fin s' with
        | (Returned _, s'') => (Returned a, s'')
        | (Threw e, s'') => (Threw e, s'')
        | (Pending, s'') => (Pending, s'')
        | (OutOfModel, s'') => (OutOfModel, s'')
        end
    | (Threw e, s') =>
        match fin s' with
        | (Returned _, s'') => (Threw e, s'')
        | (Threw e', s'') => (Threw e', s'')
        | (Pending, s'') => (Pending, s'')
        | (OutOfModel, s'') => (OutOfModel, s'')
        end
    | r => r
    end.

Declare Scope js_scope.
Delimit Scope js_scope with js.
Bind Scope js_scope with M.

Notation "'let*' x ':=' m 'in' k" := (bind m (fun x => k))
  (at level 10, x name, m at level 100, k at level 200) : js_scope.
Notation "m ;; k" := (bind m (fun _ => k))
  (at level 100, k at level 200, right associativity) : js_scope.

Local Open Scope js_scope.

(** The setters of the instance. *)
Definition setUploading (b : bool) : M unit := fun s =>
  (Returned tt,
   mkInstance b (dragActive s) (draggedIndex s) (dragOverIndex s)
     (fileInputValue s) (calls s) (generated s)).

Definition setDragActive (b : bool) : M unit := fun s =>
  (Returned tt,
   mkInstance (uploading s) b (draggedIndex s) (dragOverIndex s)
     (fileInputValue s) (calls s) (generated s)).

Definition setDraggedIndex (i : option nat) : M unit := fun s =>
  (Returned tt,
   mkInstance (uploading s) (dragActive s) i (dragOverIndex s)
     (fileInputValue s) (calls s) (generated s)).

Definition setDragOverIndex (i : option nat) : M unit := fun s =>
  (Returned tt,
   mkInstance (uploading s) (dragActive s) (draggedIndex s) i
     (fileInputValue s) (calls s) (generated s)).

(** [if (fileInputRef.current) fileInputRef.current.value = ""]. *)
Definition resetFileInput : M unit := fun s =>
  (Returned tt,
   mkInstance (uploading s) (dragActive s) (draggedIndex s) (dragOverIndex s)
     (match fileInputValue s with Some _ => Some EmptyString | None => None end)
     (calls s) (generated s)).

(** The instance after the calls [cs] have been made. *)
Definition logged (cs : list Call) (s : Instance) : Instance :=
  mkInstance (uploading s) (dragActive s) (draggedIndex s) (dragOverIndex s)
    (fileInputValue s) (calls s ++ cs) (generated s).

Definition emit (c : Call) : M unit := fun s => (Returned tt, logged [c] s).

Definition toast (t : Toast) : M unit := emit (CallToast t).
Definition onChange (newImages : list ImageItem) : M unit :=
  emit (CallOnChange newImages).

Definition getState : M Instance := fun s => (Returned s, s).

(** ** The component *)

(** The [TypeError] of reading a property of [undefined]. *)
Definition TypeError_reading (property : string) : Thrown :=
  ErrorObject
    ("Cannot read properties of undefined (reading '" +:+ property +:+ "')").

Definition destructive : option string := Some "destructive".

(** Line 381: [`img_${Date.now()}_${Math.random().toString(36).substr(2, 9)}`]. *)
Definition generateId (env : Browser) : M string := fun s =>
  let k := generated s in
  (Returned ("img_" +:+ Js.ofNumber (Date_now env k) +:+ "_"
             +:+ Js.substr 2 9 (Math_random_toString36 env k)),
   mkInstance (uploading s) (dragActive s) (draggedIndex s) (dragOverIndex s)
     (fileInputValue s) (calls s) (S k)).

(** Lines 386-387 and 616-617:
    [allowedTypes.map((t) => t.split("/")[1].toUpperCase())].  An entry
    without a slash has no second segment, and the method call on
    [undefined] throws. *)
Fixpoint formatNames (ts : list string) : M (list string) :=
  match ts with
  | [] => ret []
  | t :: ts' =>
      match Js.split "/" t !! 1%nat with
      | Some segment =>
          let* rest := formatNames ts' in
          ret (Js.toUpperCase segment :: rest)
      | None => throw (TypeError_reading "toUpperCase")
      end
  end.

(** Lines 615-618: what every render computes before it returns. *)
Definition render_labels (p : ImageUploadProps) : M (string * string) :=
  let maxSizeMB := Js.toFixed0 (maxFileSize p) (1024 * 1024) in
  let* names := formatNames (allowedTypes p) in
  ret (maxSizeMB, Js.join ", " names).

(** Lines 384-396. *)
Definition validateFile (p : ImageUploadProps) (file : File)
    : M (option string) :=
  if negb (Js.includes (allowedTypes p) (type file)) then
    let* names := formatNames (allowedTypes p) in
    let formats := Js.join ", " names in
    ret (Some ("File " +:+ name file +:+ ": invalid format. Allowed: "
               +:+ formats))
  else if size file >? maxFileSize p then
    let maxSizeMB := Js.toFixed0 (maxFileSize p) (1024 * 1024) in
    ret (Some ("File " +:+ name file +:+ ": exceeds size limit. Maximum "
               +:+ maxSizeMB +:+ "MB"))
  else ret None.

(** Lines 399-406: [reader.onerror = reject] rejects with the event. *)
Definition fileToDataUrl (env : Browser) (file : File) : M string :=
  match readFileAsDataURL env file with
  | Some dataUrl => ret dataUrl
  | None => throw NonError
  end.

(** Lines 429-436: the [forEach] over the batch.  Every message of
    [validateFile] starts with "File", so [if (error)] tests for [null]. *)
Fixpoint validateAll (p : ImageUploadProps) (fileArray : list File)
    (errors : list string) (validFiles : list File)
    : M (list string * list File) :=
  match fileArray with
  | [] => ret (errors, validFiles)
  | file :: rest =>
      let* error := validateFile p file in
      match error with
      | Some e => validateAll p rest (errors ++ [e]) validFiles
      | None => validateAll p rest errors (validFiles ++ [file])
      end
  end.

(** Lines 453-469: the [for ... of] over the valid files. *)
Fixpoint processFiles (env : Browser) (p : ImageUploadProps)
    (validFiles : list File) (newImages : list ImageItem)
    : M (list ImageItem) :=
  match validFiles with
  | [] => ret newImages
  | file :: rest =>
      let* url :=
        match onUpload p with
        | Some upload => await (upload file)
        | None => fileToDataUrl env file
        end in
      let* id := generateId env in
      processFiles env p rest (newImages ++ [mkImageItem id url (Some file)])
  end.

(** Line 478. *)
Definition errorMessage (error : Thrown) (fallback : string) : string :=
  match error with
  | ErrorObject message => message
  | NonError => fallback
  end.

(** Lines 450-486: the [try] statement around the processing loop. *)
Definition tryProcess (env : Browser) (p : ImageUploadProps)
    (validFiles : list File) : M unit :=
  finally
    (catch
       (let* newImages := processFiles env p validFiles [] in
        onChange (images p ++ newImages) ;;
        toast {| title := "Success";
                 description := Js.ofNumber (Z.of_nat (length newImages))
                                +:+ " image(s) added";
                 variant := None |})
       (fun error =>
          let message := errorMessage error "Failed to process images" in
          toast {| title := "Error";
                   description := message;
                   variant := destructive |}))
    (setUploading false).

(** Lines 409-495. *)
Definition handleFiles (env : Browser) (p : ImageUploadProps)
    (files : option (list File)) : M unit :=
  match files with
  | None => ret tt
  | Some fileArray =>
      if (length fileArray =? 0)%nat then ret tt
      else if Z.of_nat (length (images p) + length fileArray) >? maxImages p
      then
        toast {| title := "Error";
                 description := "Maximum " +:+ Js.ofNumber (maxImages p)
                                +:+ " images allowed";
                 variant := destructive |}
      else
        let* validated := validateAll p fileArray [] [] in
        let errors := validated.1 in
        let validFiles := validated.2 in
        (if (0 <? length errors)%nat then
           toast {| title := "Validation Errors";
                    description := Js.join Js.newline errors;
                    variant := destructive |}
         else ret tt) ;;
        (if (0 <? length validFiles)%nat then
           setUploading true ;;
           tryProcess env p validFiles
         else ret tt) ;;
        resetFileInput
  end.

(** Lines 508-523; the drop zone passes the dropped files on when there
    are some. *)
Definition handleDrop (env : Browser) (p : ImageUploadProps)
    (files : option (list File)) : M unit :=
  setDragActive false ;;
  match files with
  | Some (_ :: _) => handleFiles env p files
  | _ => ret tt
  end.

Definition handleFileInput (env : Browser) (p : ImageUploadProps)
    (files : option (list File)) : M unit :=
  handleFiles env p files.

(** Lines 526-529. *)
Definition handleRemoveImage (p : ImageUploadProps) (index : nat) : M unit :=
  let newImages :=
    Js.filter_index (fun i => negb (i =? index)%nat) (images p) in
  onChange newImages.

(** Lines 532-542. *)
Definition handleSetAsCover (p : ImageUploadProps) (index : nat) : M unit :=
  if (index =? 0)%nat then ret tt
  else
    let newImages := images p in
    let spliced := Js.splice index 1 [] newImages in
    match spliced.1 with
    | movedImage :: _ =>
        let newImages := movedImage :: spliced.2 in
        onChange newImages ;;
        toast {| title := "Cover Updated";
                 description := "Image set as cover";
                 variant := None |}
    | [] =>
        (* no card at [index]: [movedImage] is [undefined], and lines
           536-541 hand over [undefined] followed by the list *)
        outOfModel
    end.

(** Lines 548-563: the URL of the cropped image.  The reader of line 558
    has no [onerror]: when the read fails its promise stays pending. *)
Definition cropUrl (env : Browser) (p : ImageUploadProps)
    (image : option ImageItem) (croppedImage : Blob + string) : M string :=
  match croppedImage with
  | inr dataUrl => ret dataUrl
  | inl blob =>
      match onCropComplete p with
      | Some upload =>
          match image with
          | Some image => await (upload (id image) blob)
          | None => throw (TypeError_reading "id")
          end
      | None =>
          match readBlobAsDataURL env blob with
          | Some dataUrl => ret dataUrl
          | None => never
          end
      end
  end.

(** Lines 545-568. *)
Definition handleCropComplete (env : Browser) (p : ImageUploadProps)
    (index : nat) (croppedImage : Blob + string) : M unit :=
  let image := images p !! index in
  let* newUrl := cropUrl env p image croppedImage in
  match image with
  | Some image =>
      let newImages :=
        <[index := mkImageItem (id image) newUrl (file image)]> (images p) in
      onChange newImages
  | None =>
      (* no card at [index]: line 566 stores [{url: newUrl}] there and
         line 567 hands the array over *)
      outOfModel
  end.

(** Lines 571-576. *)
Definition handleDragStart (p : ImageUploadProps) (index : nat) : M unit :=
  if negb (enableReorder p) then ret tt
  else setDraggedIndex (Some index).

(** Lines 578-582. *)
Definition handleDragOver (p : ImageUploadProps) (index : nat) : M unit :=
  let* s := getState in
  if negb (enableReorder p) || negb (bool_decide (is_Some (draggedIndex s)))
  then ret tt
  else setDragOverIndex (Some index).

(** Lines 584-600. *)
Definition handleDragEnd (p : ImageUploadProps) : M unit :=
  let* s := getState in
  match enableReorder p, draggedIndex s, dragOverIndex s with
  | true, Some draggedIndex, Some dragOverIndex =>
      (if negb (draggedIndex =? dragOverIndex)%nat then
         let newImages := images p in
         let spliced := Js.splice draggedIndex 1 [] newImages in
         match spliced.1 with
         | movedImage :: _ =>
             let newImages :=
               (Js.splice dragOverIndex 0 [movedImage] spliced.2).2 in
             onChange newImages
         | [] =>
             (* no card at [draggedIndex]: line 594 puts [undefined] in
                and line 595 hands the array over *)
             outOfModel
         end
       else ret tt) ;;
      setDraggedIndex None ;;
      setDragOverIndex None
  | _, _, _ =>
      setDraggedIndex None ;;
      setDragOverIndex None
  end.

(** ** The owner of the list

    The component is controlled: the list lives with the caller, who
    stores whatever [onChange] hands over.  The operations of the image
    list are the handlers seen from the owner. *)

Fixpoint onChangeCalls (cs : list Call) : list (list ImageItem) :=
  match cs with
  | [] => []
  | CallOnChange newImages :: cs' => newImages :: onChangeCalls cs'
  | CallToast _ :: cs' => onChangeCalls cs'
  end.

Fixpoint toastCalls (cs : list Call) : list Toast :=
  match cs with
  | [] => []
  | CallToast t :: cs' => t :: toastCalls cs'
  | CallOnChange _ :: cs' => toastCalls cs'
  end.

(** The calls a handler makes when it runs from [s]. *)
Definition emittedBy {A} (h : M A) (s : Instance) : list Call :=
  drop (length (calls s)) (calls (h s).2).

(** The list the owner holds once the handler has run: what [onChange]
    was last called with, or the list as it was when [onChange] was not
    called.  A handler that ends [OutOfModel] has handed over an array that
    is no [ImageItem[]], which the snapshot cannot be. *)
Definition snapshotAfter {A} (p : ImageUploadProps) (h : M A) (s : Instance)
    : list ImageItem :=
  default (images p) (last (onChangeCalls (emittedBy h s))).

(** The same props around another list: the next render. *)
Definition withImages (p : ImageUploadProps) (imgs : list ImageItem)
    : ImageUploadProps :=
  mkProps imgs (maxImages p) (allowedTypes p) (maxFileSize p)
    (enableReorder p) (onUpload p) (onCropComplete p).

Module ImageList.

Definition add (env : Browser) (p : ImageUploadProps) (s : Instance)
    (files : list File) : list ImageItem :=
  snapshotAfter p (handleFiles env p (Some files)) s.

Definition remove (p : ImageUploadProps) (s : Instance) (index : nat)
    : list ImageItem :=
  snapshotAfter p (handleRemoveImage p index) s.

Definition promoteToCover (p : ImageUploadProps) (s : Instance)
    (index : nat) : list ImageItem :=
  snapshotAfter p (handleSetAsCover p index) s.

(** A drag that starts on the card at [fromIndex], passes over the card
    at [toIndex] and ends. *)
Definition drag (p : ImageUploadProps) (fromIndex toIndex : nat) : M unit :=
  handleDragStart p fromIndex ;;
  handleDragOver p toIndex ;;
  handleDragEnd p.

Definition reorder (p : ImageUploadProps) (s : Instance)
    (fromIndex toIndex : nat) : list ImageItem :=
  snapshotAfter p (drag p fromIndex toIndex) s.

Definition updateOne (env : Browser) (p : ImageUploadProps) (s : Instance)
    (index : nat) (croppedImage : Blob + string) : list ImageItem :=
  snapshotAfter p (handleCropComplete env p index croppedImage) s.

(** The cover is the record at position 0. *)
Definition cover (imgs : list ImageItem) : option ImageItem := imgs !! 0%nat.

End ImageList.

(** The instance of a component that has just been mounted. *)
Definition mounted : Instance :=
  mkInstance false false None None (Some EmptyString) [] 0.

(** ** The vocabulary of the statements *)

(** The instance once a drag is over. *)
Definition dragCleared (s : Instance) : Instance :=
  mkInstance (uploading s) (dragActive s) None None (fileInputValue s)
    (calls s) (generated s).

(** The array of lines 592-594: the record at [i] taken out and put back
    at [j]. *)
Definition moved {A} (i j : nat) (x : A) (a : list A) : list A :=
  take j (delete i a) ++ x :: drop j (delete i a).

(** The k-th identifier (line 381). *)
Definition idAt (env : Browser) (k : nat) : string :=
  "img_" +:+ Js.ofNumber (Date_now env k) +:+ "_"
  +:+ Js.substr 2 9 (Math_random_toString36 env k).

(** How lines 456-462 resolve a file: through [onUpload] when the caller
    gave one, through the reader otherwise. *)
Definition resolution (env : Browser) (p : ImageUploadProps) (file : File)
    : Settled string :=
  match onUpload p with
  | Some upload => upload file
  | None =>
      match readFileAsDataURL env file with
      | Some dataUrl => Fulfilled dataUrl
      | None => Rejected NonError
      end
  end.

(** The record of line 464 for a file that resolved to [dataUrl]. *)
Definition resolvesTo (env : Browser) (p : ImageUploadProps)
    (f : File) (record : ImageItem) : Prop :=
  resolution env p f = Fulfilled (url record) /\ file record = Some f.

Definition resolves (env : Browser) (p : ImageUploadProps) (file : File)
    : Prop :=
  exists dataUrl, resolution env p file = Fulfilled dataUrl.

Definition fails (env : Browser) (p : ImageUploadProps) (f : File) : Prop :=
  exists e, resolution env p f = Rejected e.

(** The instance after [n] more identifiers have been drawn. *)
Definition drawn (n : nat) (s : Instance) : Instance :=
  mkInstance (uploading s) (dragActive s) (draggedIndex s) (dragOverIndex s)
    (fileInputValue s) (calls s) (generated s + n).

(** The notifications of the pipeline. *)
Definition tooManyToast (p : ImageUploadProps) : Toast :=
  {| title := "Error";
     description := "Maximum " +:+ Js.ofNumber (maxImages p)
                    +:+ " images allowed";
     variant := destructive |}.

Definition validationToast (errors : list string) : Toast :=
  {| title := "Validation Errors";
     description := Js.join Js.newline errors;
     variant := destructive |}.

Definition successToast (n : nat) : Toast :=
  {| title := "Success";
     description := Js.ofNumber (Z.of_nat n) +:+ " image(s) added";
     variant := None |}.

Definition failureToast (e : Thrown) : Toast :=
  {| title := "Error";
     description := errorMessage e "Failed to process images";
     variant := destructive |}.

(** Lines 439-445: the rejections are reported when there are some. *)
Definition validationReport (errors : list string) : list Call :=
  match errors with
  | [] => []
  | _ :: _ => [CallToast (validationToast errors)]
  end.

(** The instance when the pipeline has run through lines 448-492: [n]
    identifiers drawn, the calls [cs] made, the file input reset, and
    [uploading] as the [finally] left it. *)
Definition processed (cs : list Call) (n : nat) (s : Instance) : Instance :=
  mkInstance false (dragActive s) (draggedIndex s) (dragOverIndex s)
    (match fileInputValue s with Some _ => Some EmptyString | None => None end)
    (calls s ++ cs) (generated s + n).

(** The instance when no file got past validation. *)
Definition turnedAway (cs : list Call) (s : Instance) : Instance :=
  mkInstance (uploading s) (dragActive s) (draggedIndex s) (dragOverIndex s)
    (match fileInputValue s with Some _ => Some EmptyString | None => None end)
    (calls s ++ cs) (generated s).

(** A file gets past [validateFile]: its type is listed and its size is
    within the limit. *)
Definition accepts (p : ImageUploadProps) (f : File) : bool :=
  Js.includes (allowedTypes p) (type f) && negb (size f >? maxFileSize p).

(** The two messages of [validateFile], over the labels of the render
    (the size limit in MB and the list of formats). *)
Definition typeViolation (labels : string * string) (f : File) : string :=
  "File " +:+ name f +:+ ": invalid format. Allowed: " +:+ labels.2.

Definition sizeViolation (labels : string * string) (f : File) : string :=
  "File " +:+ name f +:+ ": exceeds size limit. Maximum " +:+ labels.1
  +:+ "MB".

Definition verdict (p : ImageUploadProps) (labels : string * string)
    (f : File) : option string :=
  if negb (Js.includes (allowedTypes p) (type f)) then
    Some (typeViolation labels f)
  else if size f >? maxFileSize p then Some (sizeViolation labels f)
  else None.

(** ** Sample data *)

Definition sampleBrowser : Browser :=
  {| Date_now := fun k => 1700000000000 + Z.of_nat k;
     Math_random_toString36 := fun _ => "0.4fzyo82mvyr";
     readFileAsDataURL :=
       fun f => Some ("data:" +:+ type f +:+ ";base64,AAAA");
     readBlobAsDataURL := fun _ => Some "data:image/jpeg;base64,BBBB" |}.

(** A browser whose clock and random source repeat themselves. *)
Definition repeatingBrowser : Browser :=
  {| Date_now := fun _ => 1700000000000;
     Math_random_toString36 := fun _ => "0.4fzyo82mvyr";
     readFileAsDataURL :=
       fun f => Some ("data:" +:+ type f +:+ ";base64,AAAA");
     readBlobAsDataURL := fun _ => Some "data:image/jpeg;base64,BBBB" |}.

Definition photoA : File := mkFile "a.jpg" "image/jpeg" 1000.
Definition photoB : File := mkFile "b.jpg" "image/jpeg" 2000.
Definition notes : File := mkFile "notes.txt" "text/plain" 120.
Definition broken : File := mkFile "broken.jpg" "image/jpeg" 3000.

Definition itemA : ImageItem := mkImageItem "img_1_a" "/uploads/a.jpg" None.
Definition itemB : ImageItem := mkImageItem "img_2_b" "/uploads/b.jpg" None.
Definition itemC : ImageItem := mkImageItem "img_3_c" "/uploads/c.jpg" None.
Definition itemD : ImageItem := mkImageItem "img_4_d" "/uploads/d.jpg" None.

(** An upload that fails on one file. *)
Definition flakyUpload (f : File) : Settled string :=
  if String.eqb (name f) "broken.jpg" then Rejected (ErrorObject "upload failed")
  else Fulfilled ("/uploads/" +:+ name f).

Definition uploadingProps (imgs : list ImageItem) : ImageUploadProps :=
  mkProps imgs 10 DEFAULT_ALLOWED_TYPES DEFAULT_MAX_FILE_SIZE true
    (Some flakyUpload) None.

(** Two images under a ceiling of one. *)
Definition overfullProps : ImageUploadProps :=
  mkProps [itemA; itemB] 1 DEFAULT_ALLOWED_TYPES DEFAULT_MAX_FILE_SIZE true
    None None.

(** An allow-list whose entry is no MIME type: the component does not
    render with it. *)
Definition slashlessProps : ImageUploadProps :=
  mkProps [] 10 ["jpeg"] DEFAULT_MAX_FILE_SIZE true None None.

(** An instance in the middle of a drag that has come back to its card. *)
Definition draggingOverItself : Instance :=
  mkInstance false false (Some 2%nat) (Some 2%nat) (Some EmptyString)
    [CallOnChange [itemA; itemB; itemC]] 3.

(** ** Drag events on the cards *)

(** What a card receives while it is dragged (lines 690-692). *)
Inductive DragEvent :=
| DragStart (index : nat)
| DragOver (index : nat)
| DragEnd.

Definition dragEvent (p : ImageUploadProps) (e : DragEvent) : M unit :=
  match e with
  | DragStart index => handleDragStart p index
  | DragOver index => handleDragOver p index
  | DragEnd => handleDragEnd p
  end.

(** The events of a gesture, one after the other. *)
Fixpoint dragEvents (p : ImageUploadProps) (es : list DragEvent) : M unit :=
  match es with
  | [] => ret tt
  | e :: es' => dragEvent p e ;; dragEvents p es'
  end.

Definition isDragStart (e : DragEvent) : bool :=
  match e with
  | DragStart _ => true
  | _ => false
  end.


(** The instance with the two indices of a drag set. *)
Definition hovering (dragged over : option nat) (s : Instance) : Instance :=
  mkInstance (uploading s) (dragActive s) dragged over (fileInputValue s)
    (calls s) (generated s).

(** Whether the character [c] occurs in [s]. *)
Fixpoint occurs (c : ascii) (s : string) : bool :=
  match s with
  | EmptyString => false
  | String c' s' => Ascii.eqb c' c || occurs c s'
  end.

(** ** The crop dialog

    [ImageCropDialog] (lines 45-263).  Its numbers are stored and passed
    on but never computed with: they are rationals. *)

(** A state monad over any state, with the outcomes of the handlers. *)
Definition StateM (S A : Type) : Type := S -> Outcome A * S.

Definition retS {S A} (a : A) : StateM S A := fun s => (Returned a, s).

Definition bindS {S A B} (m : StateM S A) (k : A -> StateM S B)
    : StateM S B :=
  fun s =>
    match m s with
    | (Returned a, s') => k a s'
    | (Threw e, s') => (Threw e, s')
    | (Pending, s') => (Pending, s')
    | (OutOfModel, s') => (OutOfModel, s')
    end.

Definition throwS {S A} (e : Thrown) : StateM S A := fun s => (Threw e, s).

Definition getS {S} : StateM S S := fun s => (Returned s, s).

(** [try { body } catch (e) { handler }]. *)
Definition catchS {S A} (body : StateM S A) (handler : Thrown -> StateM S A)
    : StateM S A :=
  fun s =>
    match body s with
    | (Threw e, s') => handler e s'
    | r => r
    end.

(** [try { body } finally { fin }]. *)
Definition finallyS {S A} (body : StateM S A) (fin : StateM S unit)
    : StateM S A :=
  fun s =>
    match body s with
    | (Returned a, s') =>
        match fin s' with
        | (Returned _, s'') => (Returned a, s'')
        | (Threw e, s'') => (Threw e, s'')
        | (Pending, s'') => (Pending, s'')
        | (OutOfModel, s'') => (OutOfModel, s'')
        end
    | (Threw e, s') =>
        match fin s' with
        | (Returned _, s'') => (Threw e, s'')
        | (Threw e', s'') => (Threw e', s'')
        | (Pending, s'') => (Pending, s'')
        | (OutOfModel, s'') => (OutOfModel, s'')
        end
    | r => r
    end.

Declare Scope state_scope.
Delimit Scope state_scope with state.
Bind Scope state_scope with StateM.

Notation "'let+' x ':=' m 'in' k" := (bindS m (fun x => k))
  (at level 10, x name, m at level 100, k at level 200) : state_scope.
Notation "m ;;; k" := (bindS m (fun _ => k))
  (at level 100, k at level 200, right associativity) : state_scope.

Definition number : Type := QArith_base.Q.

(** [Point] and [Area] of react-easy-crop. *)
Module Point.
Record t := mk { x : number; y : number }.
End Point.

Module Area.
Record t := mk { x : Z; y : Z; width : Z; height : Z }.
End Area.

(** An image element that has loaded. *)
Record HTMLImage := mkImage {
  src : string;
  crossOrigin : option string
}.

(** A call of [ctx.drawImage] with its nine arguments. *)
Record DrawImage := mkDrawImage {
  drawnImage : HTMLImage;
  sx : Z; sy : Z; sWidth : Z; sHeight : Z;
  dx : Z; dy : Z; dWidth : Z; dHeight : Z
}.

(** A canvas: its size and what has been drawn on it. *)
Module Canvas.
Record t := mk { width : Z; height : Z; drawn : list DrawImage }.
End Canvas.

(** [canvas.width = v] and [canvas.height = v] for an integer [v]: the
    attribute is an [unsigned long] that falls back to its default (300
    for the width, 150 for the height).  [v] is taken modulo 2^32, and a
    result above 2^31 - 1 gives the default: so does a negative [v]. *)
Definition canvasSize (fallback v : Z) : Z :=
  let n := v mod 2 ^ 32 in
  if n <=? 2147483647 then n else fallback.

(** What the dialog takes from the browser: the origin of the page,
    whether an image loads, whether a canvas gives a 2d context, and the
    two encoders (which throw on a tainted canvas; [toBlob] may hand
    [null] to its callback). *)
Record CanvasBrowser := mkCanvasBrowser {
  location_origin : string;
  imageLoads : string -> option string -> bool;
  getContext2d : bool;
  toDataURL : Canvas.t -> string -> number -> Settled string;
  toBlob : Canvas.t -> string -> number -> Settled (option Blob)
}.

Module CropDialog.

(** [ImageCropDialogProps]: [aspectRatio], [title] and [description] only
    reach the markup; [onCropComplete] is an output, logged in the state. *)
Record Props := mkProps {
  imageUrl : string;
  imageName : option string;
  returnDataUrl : bool
}.

Inductive Call :=
| CallToast (t : Toast)
| CallOnCropComplete (croppedImage : Blob + string).

(** The [useState] cells of the dialog and the calls it has made. *)
Record State := mkState {
  open : bool;
  crop : Point.t;
  zoom : number;
  croppedAreaPixels : option Area.t;
  saving : bool;
  calls : list Call
}.

Definition D (A : Type) : Type := StateM State A.

Local Open Scope state_scope.

Definition setOpen (b : bool) : D unit := fun s =>
  (Returned tt,
   mkState b (crop s) (zoom s) (croppedAreaPixels s) (saving s) (calls s)).

Definition setCrop (location : Point.t) : D unit := fun s =>
  (Returned tt,
   mkState (open s) location (zoom s) (croppedAreaPixels s) (saving s)
     (calls s)).

Definition setZoom (z : number) : D unit := fun s =>
  (Returned tt,
   mkState (open s) (crop s) z (croppedAreaPixels s) (saving s) (calls s)).

Definition setCroppedAreaPixels (a : option Area.t) : D unit := fun s =>
  (Returned tt,
   mkState (open s) (crop s) (zoom s) a (saving s) (calls s)).

Definition setSaving (b : bool) : D unit := fun s =>
  (Returned tt,
   mkState (open s) (crop s) (zoom s) (croppedAreaPixels s) b (calls s)).

Definition emit (c : Call) : D unit := fun s =>
  (Returned tt,
   mkState (open s) (crop s) (zoom s) (croppedAreaPixels s) (saving s)
     (calls s ++ [c])).

Definition toast (t : Toast) : D unit := emit (CallToast t).
Definition onCropComplete (croppedImage : Blob + string) : D unit :=
  emit (CallOnCropComplete croppedImage).

(** The state of a dialog that has just been mounted (lines 55-59). *)
Definition mounted : State :=
  mkState false (Point.mk (QArith_base.Qmake 0 1) (QArith_base.Qmake 0 1))
    (QArith_base.Qmake 1 1) None false [].

(** Lines 61-74. *)
Definition onCropChange (location : Point.t) : D unit := setCrop location.
Definition onZoomChange (z : number) : D unit := setZoom z.
Definition onCropCompleteCallback (croppedArea croppedAreaPixels : Area.t)
    : D unit :=
  setCroppedAreaPixels (Some croppedAreaPixels).

(** Lines 83-87: whether the image is requested with
    [crossOrigin = "anonymous"]. *)
Definition externalUrl (env : CanvasBrowser) (url : string) : bool :=
  negb (String.prefix "/uploads" url)
  && negb (String.prefix (location_origin env) url)
  && negb (String.prefix "data:" url).

(** Lines 77-92: the promise resolves with the image on [load] and
    rejects with the event on [error]. *)
Definition createImage (env : CanvasBrowser) (url : string) : D HTMLImage :=
  let attribute := if externalUrl env url then Some "anonymous" else None in
  if imageLoads env url attribute then retS (mkImage url attribute)
  else throwS NonError.

(** Lines 95-140. *)
Definition createCroppedImage (env : CanvasBrowser) (props : Props)
    (imageSrc : string) (pixelCrop : Area.t) : D (Blob + string) :=
  let+ image := createImage env imageSrc in
  if negb (getContext2d env) then throwS (ErrorObject "No 2d context")
  else
    let canvas :=
      Canvas.mk (canvasSize 300 (Area.width pixelCrop))
        (canvasSize 150 (Area.height pixelCrop))
        [mkDrawImage image
           (Area.x pixelCrop) (Area.y pixelCrop)
           (Area.width pixelCrop) (Area.height pixelCrop)
           0 0 (Area.width pixelCrop) (Area.height pixelCrop)] in
    if returnDataUrl props then
      match toDataURL env canvas "image/jpeg" (QArith_base.Qmake 95 100) with
      | Fulfilled dataUrl => retS (inr dataUrl)
      | Rejected e => throwS e
      end
    else
      match toBlob env canvas "image/jpeg" (QArith_base.Qmake 95 100) with
      | Fulfilled (Some blob) => retS (inl blob)
      | Fulfilled None => throwS (ErrorObject "Canvas is empty")
      | Rejected e => throwS e
      end.

(** Lines 142-176. *)
Definition handleSave (env : CanvasBrowser) (props : Props) : D unit :=
  let+ s := getS in
  match croppedAreaPixels s with
  | None =>
      toast {| title := "Error";
               description := "No crop area selected";
               variant := destructive |}
  | Some area =>
      setSaving true ;;;
      finallyS
        (catchS
           (let+ croppedImage :=
              createCroppedImage env props (imageUrl props) area in
            onCropComplete croppedImage ;;;
            setOpen false ;;;
            setCrop (Point.mk (QArith_base.Qmake 0 1) (QArith_base.Qmake 0 1)) ;;;
            setZoom (QArith_base.Qmake 1 1) ;;;
            toast {| title := "Success";
                     description := "Image cropped successfully";
                     variant := None |})
           (fun error =>
              let message := errorMessage error "Failed to crop image" in
              toast {| title := "Crop Error";
                       description := message;
                       variant := destructive |}))
        (setSaving false)
  end.

(** The crop button (line 185) and the cancel button (line 243). *)
Definition openDialog : D unit := setOpen true.
Definition cancel : D unit := setOpen false.

End CropDialog.

(** The two notifications of [handleSave] that end a save. *)
Definition cropSuccessToast : Toast :=
  {| title := "Success";
     description := "Image cropped successfully";
     variant := None |}.

Definition cropErrorToast (e : Thrown) : Toast :=
  {| title := "Crop Error";
     description := errorMessage e "Failed to crop image";
     variant := destructive |}.

Definition noCropAreaToast : Toast :=
  {| title := "Error";
     description := "No crop area selected";
     variant := destructive |}.

(** A browser in which images load and canvases encode. *)
Definition sampleCanvasBrowser : CanvasBrowser :=
  {| location_origin := "https://shop.example";
     imageLoads := fun _ _ => true;
     getContext2d := true;
     toDataURL := fun _ _ _ => Fulfilled "data:image/jpeg;base64,CCCC";
     toBlob := fun _ _ _ => Fulfilled (Some (BlobOf "cropped")) |}.

(** A browser whose canvases come out empty. *)
Definition emptyCanvasBrowser : CanvasBrowser :=
  {| location_origin := "https://shop.example";
     imageLoads := fun _ _ => true;
     getContext2d := true;
     toDataURL := fun _ _ _ => Fulfilled "data:image/jpeg;base64,CCCC";
     toBlob := fun _ _ _ => Fulfilled None |}.

Definition sampleArea : Area.t := Area.mk 100 0 750 562.

(** An open dialog in which the cropper has reported an area. *)
Definition cropping : CropDialog.State :=
  CropDialog.mkState true
    (Point.mk (QArith_base.Qmake 12 1) (QArith_base.Qmake (-3) 1))
    (QArith_base.Qmake 3 2) (Some sampleArea) false [].

Definition sampleDialogProps : CropDialog.Props :=
  CropDialog.mkProps "/uploads/b.jpg" (Some "Image 2") false.

(** ** The crop dialog in the grid *)

(** Lines 751-760: the dialog of the card at [index].  It gets no
    [returnDataUrl]; its [onCropComplete] is
    [(croppedImage) => handleCropComplete(index, croppedImage)]. *)
Definition cardCropProps (image : ImageItem) (index : nat)
    : CropDialog.Props :=
  CropDialog.mkProps (url image)
    (Some ("Image " +:+ Js.ofNumber (Z.of_nat index + 1))) false.

(** A call whose promise nobody awaits: what the handler did stays, how
    it ended is lost. *)
Definition unawaited {A} (h : M A) : M unit :=
  fun s => (Returned tt, (h s).2).

(** The calls of a card's dialog as they reach [ImageUpload]. *)
Fixpoint deliver (env : Browser) (p : ImageUploadProps) (index : nat)
    (cs : list CropDialog.Call) : M unit :=
  match cs with
  | [] => ret tt
  | CropDialog.CallOnCropComplete croppedImage :: cs' =>
      unawaited (handleCropComplete env p index croppedImage) ;;
      deliver env p index cs'
  | CropDialog.CallToast _ :: cs' => deliver env p index cs'
  end.

(** The save button of the dialog of the card at [index], over the state
    of that dialog and the instance of [ImageUpload]. *)
Definition saveInCard (cenv : CanvasBrowser) (env : Browser)
    (p : ImageUploadProps) (index : nat)
    : StateM (CropDialog.State * Instance) unit :=
  fun st =>
    match images p !! index with
    | None => (Returned tt, st)
    | Some image =>
        let r := CropDialog.handleSave cenv (cardCropProps image index) st.1 in
        let emitted :=
          drop (length (CropDialog.calls st.1)) (CropDialog.calls r.2) in
        (r.1, (r.2, (deliver env p index emitted st.2).2))
    end.

(** Props whose [onCropComplete] rejects. *)
Definition rejectingCropProps : ImageUploadProps :=
  mkProps [itemA; itemB] 10 DEFAULT_ALLOWED_TYPES DEFAULT_MAX_FILE_SIZE true
    None (Some (fun _ _ => Rejected (ErrorObject "crop upload failed"))).

(** ** The demo page

    [HomePage] (src/unnamed/part_000): it owns the list
    ([useState<ImageItem[]>([])]), hands it to [ImageUpload] with
    [onChange={setImages}] and [maxImages={10}], and has a reset button. *)

Record Page := mkPage {
  pageImages : list ImageItem;
  widget : Instance
}.

(** Lines 49-59 of the page: the props it gives to [ImageUpload]. *)
Definition pageProps (imgs : list ImageItem) : ImageUploadProps :=
  mkProps imgs 10 DEFAULT_ALLOWED_TYPES DEFAULT_MAX_FILE_SIZE true None None.

(** What the user can do on the page: pick or drop files, use the
    buttons of a card, save a crop in the dialog of a card (which hands a
    blob over), drag a card onto another, reset the form. *)
Inductive UserAction :=
| SelectFiles (files : option (list File))
| DropFiles (files : option (list File))
| RemoveCard (index : nat)
| PromoteCard (index : nat)
| CropCard (index : nat) (blob : Blob)
| DragCard (fromIndex toIndex : nat)
| ResetForm.

(** Whether the page as rendered offers the action: a card exists for
    every index below the length (line 680), and the star button is on the
    cards other than the first (line 704). *)
Definition offered (pg : Page) (a : UserAction) : bool :=
  match a with
  | SelectFiles _ | DropFiles _ | ResetForm => true
  | RemoveCard index => (index <? length (pageImages pg))%nat
  | PromoteCard index =>
      negb (index =? 0)%nat && (index <? length (pageImages pg))%nat
  | CropCard index _ => (index <? length (pageImages pg))%nat
  | DragCard fromIndex toIndex =>
      (fromIndex <? length (pageImages pg))%nat
      && (toIndex <? length (pageImages pg))%nat
  end.

(** The handler of [ImageUpload] that the action runs ([ResetForm] runs
    none). *)
Definition handlerOf (env : Browser) (p : ImageUploadProps) (a : UserAction)
    : M unit :=
  match a with
  | SelectFiles files => handleFileInput env p files
  | DropFiles files => handleDrop env p files
  | RemoveCard index => handleRemoveImage p index
  | PromoteCard index => handleSetAsCover p index
  | CropCard index blob => handleCropComplete env p index (inl blob)
  | DragCard fromIndex toIndex => ImageList.drag p fromIndex toIndex
  | ResetForm => ret tt
  end.

(** The page after the action: [setImages] keeps what [onChange] was
    last called with; [handleReset] sets the empty list. *)
Definition act (env : Browser) (pg : Page) (a : UserAction) : Page :=
  let p := pageProps (pageImages pg) in
  let h := handlerOf env p a in
  mkPage
    (match a with
     | ResetForm => []
     | _ => snapshotAfter p h (widget pg)
     end)
    (h (widget pg)).2.

(** The pages the user can get to from a fresh one. *)
Inductive Reachable (env : Browser) : Page -> Prop :=
| reach_fresh : Reachable env (mkPage [] mounted)
| reach_act pg a :
    Reachable env pg -> offered pg a = true -> Reachable env (act env pg a).

(** ** Arrays *)

Section Arrays.
Context {A : Type}.
Implicit Types (a : list A) (x : A) (i j k : nat).

Lemma filter_index_from_all p k a :
  (forall i, (k <= i)%nat -> p i = true) -> Js.filter_index_from p k a = a.
Proof.
  revert k. induction a as [|x a IH]; intros k Hp; simpl; [done|].
  rewrite Hp by lia. f_equal. apply IH. intros i Hi. apply Hp. lia.
Qed.

Lemma filter_index_from_delete a : forall k index p,
  (forall i, p i = negb (i =? k + index)%nat) ->
  Js.filter_index_from p k a = delete index a.
Proof.
  induction a as [|x a IH]; intros k index p Hp; simpl.
  - by destruct index.
  - rewrite Hp. destruct index as [|n]; simpl.
    + replace (k =? k + 0)%nat with true by (symmetry; apply Nat.eqb_eq; lia).
      simpl. apply filter_index_from_all. intros i Hi. rewrite Hp.
      apply negb_true_iff, Nat.eqb_neq. lia.
    + replace (k =? k + S n)%nat with false
        by (symmetry; apply Nat.eqb_neq; lia).
      simpl. f_equal. apply IH. intros i. rewrite Hp. do 2 f_equal. lia.
Qed.

(** [a.filter((_, i) => i !== index)] deletes position [index]. *)
Lemma filter_index_delete a index :
  Js.filter_index (fun i => negb (i =? index)%nat) a = delete index a.
Proof. apply filter_index_from_delete. intros i. done. Qed.

(** [a.splice(i, 1)] on a position that holds [x]. *)
Lemma splice_remove a i x :
  a !! i = Some x -> Js.splice i 1 [] a = ([x], delete i a).
Proof.
  intros Hx. unfold Js.splice. f_equal.
  - rewrite <- (take_drop_middle a i x Hx) at 1.
    rewrite drop_app_length'; [done|].
    rewrite length_take. apply lookup_lt_Some in Hx. lia.
  - simpl. rewrite delete_take_drop. do 2 f_equal. lia.
Qed.

(** [a.splice(i, 1)] past the end removes nothing. *)
Lemma splice_remove_none a i :
  a !! i = None -> Js.splice i 1 [] a = ([], a).
Proof.
  intros Hx. apply lookup_ge_None in Hx. unfold Js.splice.
  rewrite (drop_ge a i), (drop_ge a (i + 1)), (take_ge a i) by lia.
  simpl. by rewrite app_nil_r.
Qed.

(** [a.splice(j, 0, x)] puts [x] at position [j]. *)
Lemma splice_insert a j x :
  (Js.splice j 0 [x] a).2 = take j a ++ x :: drop j a.
Proof. unfold Js.splice. simpl. by rewrite Nat.add_0_r. Qed.

Lemma delete_insert_at a j x :
  (j <= length a)%nat -> delete j (take j a ++ x :: drop j a) = a.
Proof.
  intros Hj. rewrite delete_take_drop.
  rewrite take_app_length' by (rewrite length_take; lia).
  rewrite drop_app_ge by (rewrite length_take; lia).
  rewrite length_take.
  replace (S j - j `min` length a)%nat with 1%nat by lia.
  simpl. rewrite drop_0. apply take_drop.
Qed.

Lemma lookup_insert_at a j x :
  (j <= length a)%nat -> (take j a ++ x :: drop j a) !! j = Some x.
Proof.
  intros Hj. rewrite lookup_app_r; rewrite length_take; [|lia].
  by replace (j - j `min` length a)%nat with 0%nat by lia.
Qed.

Lemma insert_at_delete a i x :
  a !! i = Some x ->
  take i (delete i a) ++ x :: drop i (delete i a) = a.
Proof.
  intros Hx. pose proof (lookup_lt_Some _ _ _ Hx) as Hi.
  rewrite delete_take_drop.
  rewrite take_app_length' by (rewrite length_take; lia).
  rewrite drop_app_length' by (rewrite length_take; lia).
  by apply take_drop_middle.
Qed.

End Arrays.

(** ** Running the handlers *)

Lemma calls_logged cs s : calls (logged cs s) = calls s ++ cs.
Proof. done. Qed.

Lemma logged_logged cs1 cs2 s :
  logged cs2 (logged cs1 s) = logged (cs1 ++ cs2) s.
Proof. unfold logged. simpl. by rewrite <- app_assoc. Qed.

Lemma logged_nil s : logged [] s = s.
Proof. destruct s. unfold logged. simpl. by rewrite app_nil_r. Qed.

Lemma emittedBy_calls {A} (h : M A) s cs :
  calls (h s).2 = calls s ++ cs -> emittedBy h s = cs.
Proof. intros H. unfold emittedBy. rewrite H. apply drop_app_length. Qed.

Lemma emittedBy_logged {A} (h : M A) s o cs :
  h s = (o, logged cs s) -> emittedBy h s = cs.
Proof. intros H. apply emittedBy_calls. by rewrite H. Qed.

Lemma onChangeCalls_app cs1 cs2 :
  onChangeCalls (cs1 ++ cs2) = onChangeCalls cs1 ++ onChangeCalls cs2.
Proof.
  induction cs1 as [|[t|l] cs1 IH]; simpl; [done|done|by rewrite IH].
Qed.

(** Lines 526-529 at any index. *)
Lemma handleRemoveImage_run p index s :
  handleRemoveImage p index s
  = (Returned tt, logged [CallOnChange (delete index (images p))] s).
Proof.
  unfold handleRemoveImage, onChange, emit. by rewrite filter_index_delete.
Qed.

Lemma remove_delete p s index :
  ImageList.remove p s index = delete index (images p).
Proof.
  unfold ImageList.remove, snapshotAfter.
  by rewrite (emittedBy_logged _ _ _ _ (handleRemoveImage_run p index s)).
Qed.

(** Lines 532-542 at a position that holds a record. *)
Lemma handleSetAsCover_run p index x s :
  index <> 0%nat -> images p !! index = Some x ->
  handleSetAsCover p index s
  = (Returned tt,
     logged [CallOnChange (x :: delete index (images p));
             CallToast {| title := "Cover Updated";
                          description := "Image set as cover";
                          variant := None |}] s).
Proof.
  intros Hne Hx. unfold handleSetAsCover.
  destruct index as [|n]; [done|]. simpl Nat.eqb. cbv iota.
  rewrite (splice_remove _ _ _ Hx). simpl.
  unfold bind, onChange, toast, emit. by rewrite logged_logged.
Qed.

Lemma handleSetAsCover_zero p s : handleSetAsCover p 0 s = (Returned tt, s).
Proof. done. Qed.

Lemma handleSetAsCover_out p index s :
  index <> 0%nat -> images p !! index = None ->
  handleSetAsCover p index s = (OutOfModel, s).
Proof.
  intros Hne Hx. unfold handleSetAsCover.
  destruct index as [|n]; [done|]. simpl Nat.eqb. cbv iota.
  by rewrite (splice_remove_none _ _ Hx).
Qed.

Lemma promoteToCover_eq p s index :
  ImageList.promoteToCover p s index
  = match index, images p !! index with
    | S _, Some x => x :: delete index (images p)
    | _, _ => images p
    end.
Proof.
  unfold ImageList.promoteToCover, snapshotAfter.
  destruct index as [|n].
  - rewrite (emittedBy_logged _ s (Returned tt) []); [done|].
    by rewrite logged_nil.
  - destruct (images p !! S n) as [x|] eqn:Hx.
    + by rewrite (emittedBy_logged _ _ _ _
                    (handleSetAsCover_run p (S n) x s (Nat.neq_succ_0 n) Hx)).
    + rewrite (emittedBy_logged _ s OutOfModel []); [done|].
      rewrite logged_nil. by apply handleSetAsCover_out.
Qed.

(** Lines 584-600 when a drag between two different cards ends. *)
Lemma handleDragEnd_run p s i j x :
  enableReorder p = true ->
  draggedIndex s = Some i -> dragOverIndex s = Some j ->
  i <> j -> images p !! i = Some x ->
  handleDragEnd p s
  = (Returned tt,
     dragCleared (logged [CallOnChange (moved i j x (images p))] s)).
Proof.
  intros He Hi Hj Hne Hx. unfold handleDragEnd, bind, getState.
  rewrite He, Hi, Hj.
  replace (i =? j)%nat with false by (symmetry; by apply Nat.eqb_neq).
  simpl negb. cbv iota.
  rewrite (splice_remove _ _ _ Hx). cbn [fst snd].
  rewrite splice_insert. done.
Qed.

(** Lines 584-600 when there is nothing to move. *)
Lemma handleDragEnd_noop p s :
  enableReorder p = false \/ draggedIndex s = None \/ dragOverIndex s = None
  \/ draggedIndex s = dragOverIndex s ->
  handleDragEnd p s = (Returned tt, dragCleared s).
Proof.
  intros H. unfold handleDragEnd, bind, getState.
  destruct (enableReorder p); [|done].
  destruct (draggedIndex s) as [i|] eqn:Hi; [|done].
  destruct (dragOverIndex s) as [j|] eqn:Hj; [|done].
  destruct H as [H|[H|[H|H]]]; try done.
  injection H as ->. by rewrite Nat.eqb_refl.
Qed.

Lemma handleDragEnd_out p s i j :
  enableReorder p = true ->
  draggedIndex s = Some i -> dragOverIndex s = Some j ->
  i <> j -> images p !! i = None ->
  handleDragEnd p s = (OutOfModel, s).
Proof.
  intros He Hi Hj Hne Hx. unfold handleDragEnd, bind, getState.
  rewrite He, Hi, Hj.
  replace (i =? j)%nat with false by (symmetry; by apply Nat.eqb_neq).
  simpl negb. cbv iota.
  by rewrite (splice_remove_none _ _ Hx).
Qed.

(** The list after a drag from [i] to [j]. *)
Lemma reorder_eq p s i j :
  ImageList.reorder p s i j
  = if enableReorder p then
      match images p !! i with
      | Some x => if decide (i = j) then images p else moved i j x (images p)
      | None => images p
      end
    else images p.
Proof.
  unfold ImageList.reorder, snapshotAfter.
  set (s1 := mkInstance (uploading s) (dragActive s) (Some i) (Some j)
               (fileInputValue s) (calls s) (generated s)).
  assert (Hdrag : ImageList.drag p i j s
                  = if enableReorder p then handleDragEnd p s1
                    else handleDragEnd p s).
  { unfold ImageList.drag, handleDragStart, handleDragOver, bind, getState,
      setDraggedIndex, setDragOverIndex, ret.
    destruct (enableReorder p); simpl; done. }
  destruct (enableReorder p) eqn:He.
  - destruct (decide (i = j)) as [->|Hne].
    + rewrite (emittedBy_calls _ s []).
      { by destruct (images p !! j). }
      rewrite Hdrag, handleDragEnd_noop; [by rewrite app_nil_r|].
      by do 3 right.
    + destruct (images p !! i) as [x|] eqn:Hx.
      * rewrite (emittedBy_calls _ s [CallOnChange (moved i j x (images p))]);
          [done|].
        by rewrite Hdrag, (handleDragEnd_run p s1 i j x).
      * rewrite (emittedBy_calls _ s []); [done|].
        rewrite Hdrag, (handleDragEnd_out p s1 i j); [|done..].
        by rewrite app_nil_r.
  - rewrite (emittedBy_calls _ s []); [done|].
    rewrite Hdrag, handleDragEnd_noop; [by rewrite app_nil_r|by left].
Qed.

Lemma moved_length {A} i j (x : A) a :
  a !! i = Some x -> length (moved i j x a) = length a.
Proof.
  intros Hx. unfold moved.
  rewrite length_app. simpl. rewrite length_take, length_drop.
  rewrite length_delete by eauto.
  apply lookup_lt_Some in Hx. lia.
Qed.

Lemma moved_Permutation {A} i j (x : A) a :
  a !! i = Some x -> moved i j x a ≡ₚ a.
Proof.
  intros Hx. unfold moved.
  rewrite <- Permutation_middle, take_drop.
  symmetry. by apply delete_Permutation.
Qed.

(** Moving back restores the array. *)
Lemma moved_back {A} i j (x : A) a :
  a !! i = Some x -> (j < length a)%nat ->
  moved i j x a !! j = Some x /\ moved j i x (moved i j x a) = a.
Proof.
  intros Hx Hj. pose proof (lookup_lt_Some _ _ _ Hx) as Hi.
  assert (Hlen : (j <= length (delete i a))%nat).
  { rewrite length_delete by eauto. lia. }
  split.
  - by apply lookup_insert_at.
  - unfold moved at 1 2. fold (moved i j x a).
    unfold moved at 1 2. rewrite (delete_insert_at _ _ _ Hlen).
    by apply insert_at_delete.
Qed.

(** [cropUrl] leaves the instance alone. *)
Lemma cropUrl_state env p image croppedImage s :
  (cropUrl env p image croppedImage s).2 = s.
Proof.
  unfold cropUrl.
  destruct croppedImage as [blob|dataUrl]; [|done].
  destruct (onCropComplete p) as [upload|].
  - destruct image as [image|]; [|done].
    unfold await. by destruct (upload (id image) blob).
  - by destruct (readBlobAsDataURL env blob).
Qed.

(** Lines 545-568 when the crop yields [newUrl] for a record of the list. *)
Lemma handleCropComplete_run env p s index image croppedImage newUrl :
  images p !! index = Some image ->
  cropUrl env p (Some image) croppedImage s = (Returned newUrl, s) ->
  handleCropComplete env p index croppedImage s
  = (Returned tt,
     logged [CallOnChange
               (<[index := mkImageItem (id image) newUrl (file image)]>
                  (images p))] s).
Proof.
  intros Hx Hurl. unfold handleCropComplete, bind. by rewrite Hx, Hurl.
Qed.

(** The list after a crop: one record with a new [url], or the list as it
    was. *)
Lemma updateOne_eq env p s index croppedImage :
  ImageList.updateOne env p s index croppedImage = images p
  \/ exists image newUrl,
       images p !! index = Some image
       /\ cropUrl env p (Some image) croppedImage s = (Returned newUrl, s)
       /\ ImageList.updateOne env p s index croppedImage
          = <[index := mkImageItem (id image) newUrl (file image)]> (images p).
Proof.
  unfold ImageList.updateOne, snapshotAfter.
  destruct (images p !! index) as [image|] eqn:Hx.
  - pose proof (cropUrl_state env p (Some image) croppedImage s) as Hs.
    destruct (cropUrl env p (Some image) croppedImage s) as [o s'] eqn:Hurl.
    simpl in Hs. subst s'.
    destruct o as [newUrl| | |].
    + right. exists image, newUrl. split; [done|]. split; [done|].
      by rewrite (emittedBy_logged _ _ _ _
                    (handleCropComplete_run env p s index image croppedImage
                       newUrl Hx Hurl)).
    + left. rewrite (emittedBy_calls _ s []); [done|].
      unfold handleCropComplete, bind. rewrite Hx, Hurl. simpl.
      by rewrite app_nil_r.
    + left. rewrite (emittedBy_calls _ s []); [done|].
      unfold handleCropComplete, bind. rewrite Hx, Hurl. simpl.
      by rewrite app_nil_r.
    + left. rewrite (emittedBy_calls _ s []); [done|].
      unfold handleCropComplete, bind. rewrite Hx, Hurl. simpl.
      by rewrite app_nil_r.
  - left. rewrite (emittedBy_calls _ s []); [done|].
    unfold handleCropComplete, bind. rewrite Hx.
    pose proof (cropUrl_state env p None croppedImage s) as Hs.
    destruct (cropUrl env p None croppedImage s) as [o s'].
    simpl in Hs. subst s'. destruct o; simpl; by rewrite app_nil_r.
Qed.

(** ** The intake pipeline *)

Lemma drawn_0 s : drawn 0 s = s.
Proof. destruct s. unfold drawn. simpl. by rewrite Nat.add_0_r. Qed.

Lemma generateId_run env s :
  generateId env s = (Returned (idAt env (generated s)), drawn 1 s).
Proof.
  unfold generateId, drawn, idAt. do 2 f_equal. lia.
Qed.

Lemma resolve_run env p file s :
  match onUpload p with
  | Some upload => await (upload file)
  | None => fileToDataUrl env file
  end s
  = (match resolution env p file with
     | Fulfilled dataUrl => Returned dataUrl
     | Rejected e => Threw e
     end, s).
Proof.
  unfold resolution, fileToDataUrl, await.
  destruct (onUpload p) as [upload|].
  - by destruct (upload file).
  - by destruct (readFileAsDataURL env file).
Qed.

(** The loop of lines 453-469 when every file resolves: one record per
    file, in the order of the files, with the identifiers drawn in turn. *)
Lemma processFiles_ok env p validFiles : forall newImages s,
  Forall (resolves env p) validFiles ->
  exists records,
    processFiles env p validFiles newImages s
    = (Returned (newImages ++ records), drawn (length validFiles) s)
    /\ Forall2 (resolvesTo env p) validFiles records
    /\ forall i r, records !! i = Some r -> id r = idAt env (generated s + i).
Proof.
  induction validFiles as [|f fs IH]; intros newImages s Hall.
  - exists []. simpl. rewrite app_nil_r, drawn_0. split; [done|].
    split; [constructor|]. intros i r Hr. by rewrite lookup_nil in Hr.
  - apply Forall_cons in Hall as [[dataUrl Hf] Hfs].
    cbn [processFiles]. unfold bind at 1. rewrite resolve_run, Hf.
    unfold bind at 1. rewrite generateId_run.
    destruct (IH (newImages
                  ++ [mkImageItem (idAt env (generated s)) dataUrl (Some f)])
                 (drawn 1 s) Hfs) as (records & Hrun & Hrec & Hid).
    exists (mkImageItem (idAt env (generated s)) dataUrl (Some f) :: records).
    split; [|split].
    + rewrite Hrun. f_equal.
      * by rewrite <- app_assoc.
      * unfold drawn. simpl. f_equal. lia.
    + constructor; [done|done].
    + intros [|i] r Hr; simpl in Hr.
      * injection Hr as <-. simpl. f_equal. lia.
      * rewrite (Hid i r Hr). simpl. f_equal. lia.
Qed.

(** The loop of lines 453-469 when a file fails: the loop is left at the
    first failure with what that file rejected with. *)
Lemma processFiles_fail env p validFiles : forall newImages s,
  Exists (fails env p) validFiles ->
  exists resolved failing rest e,
    validFiles = resolved ++ failing :: rest
    /\ Forall (resolves env p) resolved
    /\ resolution env p failing = Rejected e
    /\ processFiles env p validFiles newImages s
       = (Threw e, drawn (length resolved) s).
Proof.
  induction validFiles as [|f fs IH]; intros newImages s Hex.
  - by apply Exists_nil in Hex.
  - destruct (resolution env p f) as [dataUrl|e] eqn:Hf.
    + apply Exists_cons in Hex as [Hbad|Hex].
      { destruct Hbad as [e' He']. congruence. }
      destruct (IH (newImages
                    ++ [mkImageItem (idAt env (generated s)) dataUrl (Some f)])
                   (drawn 1 s) Hex)
        as (resolved & failing & rest & e & -> & Hres & Hfail & Hrun).
      exists (f :: resolved), failing, rest, e.
      split; [done|]. split; [constructor; [by exists dataUrl|done]|].
      split; [done|].
      cbn [processFiles]. unfold bind at 1. rewrite resolve_run, Hf.
      unfold bind at 1. rewrite generateId_run, Hrun.
      f_equal. unfold drawn. simpl. f_equal. lia.
    + exists [], f, fs, e. split; [done|]. split; [constructor|].
      split; [done|].
      cbn [processFiles]. unfold bind at 1. rewrite resolve_run, Hf.
      by rewrite drawn_0.
Qed.

(** Lines 450-486 when every valid file resolves. *)
Lemma tryProcess_ok env p validFiles s :
  Forall (resolves env p) validFiles ->
  exists records,
    tryProcess env p validFiles s
    = (Returned tt,
       mkInstance false (dragActive s) (draggedIndex s) (dragOverIndex s)
         (fileInputValue s)
         (calls s ++ [CallOnChange (images p ++ records);
                      CallToast (successToast (length validFiles))])
         (generated s + length validFiles))
    /\ Forall2 (resolvesTo env p) validFiles records
    /\ forall i r, records !! i = Some r -> id r = idAt env (generated s + i).
Proof.
  intros Hall.
  destruct (processFiles_ok env p validFiles [] s Hall)
    as (records & Hrun & Hrec & Hid).
  exists records. split; [|done].
  unfold tryProcess, finally, catch, bind. rewrite Hrun. simpl.
  rewrite <- (Forall2_length _ _ _ Hrec).
  unfold successToast. by rewrite <- app_assoc.
Qed.

(** Lines 450-486 when a valid file fails to resolve. *)
Lemma tryProcess_fail env p validFiles s :
  Exists (fails env p) validFiles ->
  exists resolved failing rest e,
    validFiles = resolved ++ failing :: rest
    /\ Forall (resolves env p) resolved
    /\ resolution env p failing = Rejected e
    /\ tryProcess env p validFiles s
       = (Returned tt,
          mkInstance false (dragActive s) (draggedIndex s) (dragOverIndex s)
            (fileInputValue s) (calls s ++ [CallToast (failureToast e)])
            (generated s + length resolved)).
Proof.
  intros Hex.
  destruct (processFiles_fail env p validFiles [] s Hex)
    as (resolved & failing & rest & e & Hsplit & Hres & Hfail & Hrun).
  exists resolved, failing, rest, e. do 3 (split; [done|]).
  unfold tryProcess, finally, catch, bind. by rewrite Hrun.
Qed.

(** [formatNames] reads nothing from the instance and leaves it alone. *)
Lemma formatNames_pure ts :
  (exists names, forall s, formatNames ts s = (Returned names, s))
  \/ (forall s, formatNames ts s = (Threw (TypeError_reading "toUpperCase"), s)).
Proof.
  induction ts as [|t ts IH]; simpl.
  - left. by exists [].
  - destruct (Js.split "/" t !! 1%nat) as [segment|]; [|by right].
    destruct IH as [[names Hn]|Ht].
    + left. exists (Js.toUpperCase segment :: names). intros s.
      unfold bind. by rewrite Hn.
    + right. intros s. unfold bind. by rewrite Ht.
Qed.

(** Once the component has rendered, [formatNames] is known to return. *)
Lemma rendered_formatNames p labels s0 :
  render_labels p s0 = (Returned labels, s0) ->
  exists names,
    labels = (Js.toFixed0 (maxFileSize p) (1024 * 1024), Js.join ", " names)
    /\ forall s, formatNames (allowedTypes p) s = (Returned names, s).
Proof.
  unfold render_labels, bind. intros Hr.
  destruct (formatNames_pure (allowedTypes p)) as [[names Hn]|Ht].
  - exists names. rewrite Hn in Hr. by injection Hr as <-.
  - by rewrite Ht in Hr.
Qed.

(** The component renders exactly when every entry of [allowedTypes] has
    a part after a slash. *)
Lemma rendered_iff_slashes p s :
  (exists labels, render_labels p s = (Returned labels, s))
  <-> Forall (fun t => is_Some (Js.split "/" t !! 1%nat)) (allowedTypes p).
Proof.
  unfold render_labels, bind.
  assert (Hnames : (exists names, formatNames (allowedTypes p) s
                                  = (Returned names, s))
                   <-> Forall (fun t => is_Some (Js.split "/" t !! 1%nat))
                         (allowedTypes p)).
  { induction (allowedTypes p) as [|t ts IH]; simpl.
    - split; [constructor|by exists []].
    - unfold bind. rewrite Forall_cons, <- IH.
      destruct (Js.split "/" t !! 1%nat) as [segment|].
      + destruct (formatNames_pure ts) as [[names Hn]|Ht].
        * rewrite Hn. split; [|by eexists]. intros _. split; by eexists.
        * rewrite Ht. split; [by intros [? ?]|]. by intros [_ [? ?]].
      + split; [by intros [? ?]|]. by intros [[? ?] _]. }
  rewrite <- Hnames. clear Hnames.
  destruct (formatNames_pure (allowedTypes p)) as [[names Hn]|Ht].
  - rewrite Hn. split; by eexists.
  - rewrite Ht. split; by intros [? ?].
Qed.

Lemma validateFile_rendered p labels s0 :
  render_labels p s0 = (Returned labels, s0) ->
  forall f s, validateFile p f s = (Returned (verdict p labels f), s).
Proof.
  intros Hr f s.
  destruct (rendered_formatNames p labels s0 Hr) as (names & -> & Hn).
  unfold validateFile, verdict, typeViolation, sizeViolation.
  destruct (negb (Js.includes (allowedTypes p) (type f))).
  - unfold bind. by rewrite Hn.
  - by destruct (size f >? maxFileSize p).
Qed.

(** A file that is accepted needs no label. *)
Lemma validateFile_accepts p f s :
  accepts p f = true -> validateFile p f s = (Returned None, s).
Proof.
  unfold accepts, validateFile. intros [Hin Hsize]%andb_true_iff.
  rewrite Hin. simpl. apply negb_true_iff in Hsize. by rewrite Hsize.
Qed.

Lemma verdict_accepts p labels f :
  verdict p labels f = None <-> accepts p f = true.
Proof.
  unfold verdict, accepts.
  destruct (Js.includes (allowedTypes p) (type f)); simpl; [|done].
  by destruct (size f >? maxFileSize p).
Qed.

(** Lines 429-436 in a component that has rendered: the messages of the
    rejected files and the accepted files, both in the order of the batch. *)
Lemma validateAll_rendered p labels s0 :
  render_labels p s0 = (Returned labels, s0) ->
  forall fileArray errors validFiles s,
    validateAll p fileArray errors validFiles s
    = (Returned (errors ++ omap (verdict p labels) fileArray,
                 validFiles ++ List.filter (accepts p) fileArray), s).
Proof.
  intros Hr. induction fileArray as [|f fs IH]; intros errors validFiles s.
  - simpl. by rewrite !app_nil_r.
  - cbn [validateAll]. unfold bind at 1.
    rewrite (validateFile_rendered p labels s0 Hr).
    pose proof (verdict_accepts p labels f) as Hv.
    destruct (verdict p labels f) as [e|] eqn:He.
    + rewrite IH. simpl. rewrite He.
      destruct (accepts p f); [by apply proj2 in Hv; discriminate Hv|].
      by rewrite <- app_assoc.
    + rewrite IH. simpl. rewrite He.
      rewrite (proj1 Hv eq_refl). by rewrite <- app_assoc.
Qed.

(** Lines 429-436 on a batch of accepted files, rendered or not. *)
Lemma validateAll_accepts p fileArray : forall errors validFiles s,
  Forall (fun f => accepts p f = true) fileArray ->
  validateAll p fileArray errors validFiles s
  = (Returned (errors, validFiles ++ fileArray), s).
Proof.
  induction fileArray as [|f fs IH]; intros errors validFiles s Hall.
  - simpl. by rewrite app_nil_r.
  - apply Forall_cons in Hall as [Hf Hfs].
    cbn [validateAll]. unfold bind at 1. rewrite (validateFile_accepts _ _ _ Hf).
    rewrite (IH _ _ _ Hfs). by rewrite <- app_assoc.
Qed.

(** Lines 409-423: the count ceiling. *)
Lemma handleFiles_over env p fileArray s :
  fileArray <> [] ->
  Z.of_nat (length (images p) + length fileArray) > maxImages p ->
  handleFiles env p (Some fileArray) s
  = (Returned tt, logged [CallToast (tooManyToast p)] s).
Proof.
  intros Hne Hover. unfold handleFiles.
  destruct fileArray as [|f fs]; [done|].
  change (length (f :: fs) =? 0)%nat with false. cbv iota.
  by rewrite (proj2 (Z.gtb_gt _ _) Hover).
Qed.

(** Lines 409-411: nothing was selected. *)
Lemma handleFiles_empty env p files s :
  files = None \/ files = Some [] ->
  handleFiles env p files s = (Returned tt, s).
Proof. by intros [->| ->]. Qed.

(** Lines 425-492 for a batch within the ceiling, once validation has
    split it. *)
Lemma handleFiles_validated env p fileArray errors validFiles s :
  fileArray <> [] ->
  Z.of_nat (length (images p) + length fileArray) <= maxImages p ->
  validateAll p fileArray [] [] s = (Returned (errors, validFiles), s) ->
  handleFiles env p (Some fileArray) s
  = match validFiles with
    | [] => (Returned tt, turnedAway (validationReport errors) s)
    | _ :: _ =>
        ((setUploading true ;; tryProcess env p validFiles) ;; resetFileInput)
          (logged (validationReport errors) s)
    end.
Proof.
  intros Hne Hfit Hval. unfold handleFiles.
  destruct fileArray as [|f fs]; [done|].
  change (length (f :: fs) =? 0)%nat with false. cbv iota.
  replace (Z.of_nat (length (images p) + length (f :: fs)) >? maxImages p)
    with false by (symmetry; rewrite Z.gtb_ltb; apply Z.ltb_ge; lia).
  unfold bind at 1. rewrite Hval. cbn [fst snd].
  assert (Hreport :
    (if (0 <? length errors)%nat
     then toast {| title := "Validation Errors";
                   description := Js.join Js.newline errors;
                   variant := destructive |}
     else ret tt) s
    = (Returned tt, logged (validationReport errors) s)).
  { destruct errors; simpl; [by rewrite logged_nil|done]. }
  unfold bind at 1. rewrite Hreport.
  destruct validFiles as [|v vs]; simpl; [|done].
  unfold bind, ret, resetFileInput, turnedAway. simpl. done.
Qed.

(** Lines 448-492 once the instance has the report of the validation:
    the batch is committed when every accepted file resolves. *)
Lemma process_committed env p validFiles report s :
  validFiles <> [] ->
  Forall (resolves env p) validFiles ->
  exists records,
    ((setUploading true ;; tryProcess env p validFiles) ;; resetFileInput)
      (logged report s)
    = (Returned tt,
       processed (report ++ [CallOnChange (images p ++ records);
                             CallToast (successToast (length validFiles))])
         (length validFiles) s)
    /\ Forall2 (resolvesTo env p) validFiles records
    /\ forall i r, records !! i = Some r -> id r = idAt env (generated s + i).
Proof.
  intros Hne Hall.
  set (s1 := mkInstance true (dragActive s) (draggedIndex s) (dragOverIndex s)
               (fileInputValue s) (calls s ++ report) (generated s)).
  destruct (tryProcess_ok env p validFiles s1 Hall)
    as (records & Hrun & Hrec & Hid).
  exists records. split; [|done].
  unfold bind at 1. unfold bind at 1. unfold setUploading at 1.
  change (mkInstance true _ _ _ _ _ _) with s1. rewrite Hrun.
  unfold resetFileInput, processed. simpl. by rewrite <- app_assoc.
Qed.

(** ... and abandoned when one of them fails. *)
Lemma process_abandoned env p validFiles report s :
  Exists (fails env p) validFiles ->
  exists resolved failing rest e,
    validFiles = resolved ++ failing :: rest
    /\ Forall (resolves env p) resolved
    /\ resolution env p failing = Rejected e
    /\ ((setUploading true ;; tryProcess env p validFiles) ;; resetFileInput)
         (logged report s)
       = (Returned tt,
          processed (report ++ [CallToast (failureToast e)])
            (length resolved) s).
Proof.
  intros Hex.
  set (s1 := mkInstance true (dragActive s) (draggedIndex s) (dragOverIndex s)
               (fileInputValue s) (calls s ++ report) (generated s)).
  destruct (tryProcess_fail env p validFiles s1 Hex)
    as (resolved & failing & rest & e & Hsplit & Hres & Hfail & Hrun).
  exists resolved, failing, rest, e. do 3 (split; [done|]).
  unfold bind at 1. unfold bind at 1. unfold setUploading at 1.
  change (mkInstance true _ _ _ _ _ _) with s1. rewrite Hrun.
  unfold resetFileInput, processed. simpl. by rewrite <- app_assoc.
Qed.

(** Every file either resolves or fails. *)
Lemma resolves_or_fails env p validFiles :
  Forall (resolves env p) validFiles \/ Exists (fails env p) validFiles.
Proof.
  induction validFiles as [|f fs IH]; [left; constructor|].
  destruct (resolution env p f) as [dataUrl|e] eqn:Hf.
  - destruct IH as [Hall|Hex].
    + left. constructor; [by exists dataUrl|done].
    + right. by apply Exists_cons_tl.
  - right. apply Exists_cons_hd. by exists e.
Qed.

(** Whatever the configuration, [validateFile] accepts, rejects with a
    message, or throws. *)
Lemma validateFile_cases p f s :
  (accepts p f = true /\ validateFile p f s = (Returned None, s))
  \/ (accepts p f = false
      /\ ((exists msg, validateFile p f s = (Returned (Some msg), s))
          \/ exists e, validateFile p f s = (Threw e, s))).
Proof.
  destruct (accepts p f) eqn:Hacc.
  - left. split; [done|]. by apply validateFile_accepts.
  - right. split; [done|]. unfold validateFile, accepts in *.
    destruct (Js.includes (allowedTypes p) (type f)); simpl in *.
    + apply negb_false_iff in Hacc. rewrite Hacc. left. by eexists.
    + unfold bind.
      destruct (formatNames_pure (allowedTypes p)) as [[names Hn]|Ht].
      * rewrite Hn. left. by eexists.
      * rewrite Ht. right. by eexists.
Qed.

Lemma validateAll_step p f fs errors validFiles s :
  validateAll p (f :: fs) errors validFiles s
  = match validateFile p f s with
    | (Returned (Some e), s') => validateAll p fs (errors ++ [e]) validFiles s'
    | (Returned None, s') => validateAll p fs errors (validFiles ++ [f]) s'
    | (Threw e, s') => (Threw e, s')
    | (Pending, s') => (Pending, s')
    | (OutOfModel, s') => (OutOfModel, s')
    end.
Proof.
  cbn [validateAll]. unfold bind.
  destruct (validateFile p f s) as [[[e|]| | |] s']; done.
Qed.

(** Whatever the configuration, validation throws or hands on the
    accepted files of the batch, in their order. *)
Lemma validateAll_cases p fileArray : forall errors validFiles s,
  (exists e, validateAll p fileArray errors validFiles s = (Threw e, s))
  \/ (exists errors',
        validateAll p fileArray errors validFiles s
        = (Returned (errors', validFiles ++ List.filter (accepts p) fileArray),
           s)).
Proof.
  induction fileArray as [|f fs IH]; intros errors validFiles s.
  - right. exists errors. simpl. by rewrite app_nil_r.
  - rewrite validateAll_step. cbn [List.filter].
    destruct (validateFile_cases p f s)
      as [[Hacc ->]|[Hacc [[msg ->]|[e ->]]]]; rewrite Hacc.
    + destruct (IH errors (validFiles ++ [f]) s) as [[e He]|[errors' He]].
      * left. by exists e.
      * right. exists errors'. rewrite He. by rewrite <- app_assoc.
    + apply IH.
    + left. by exists e.
Qed.

Lemma snapshotAfter_calls {A} p (h : M A) s cs :
  calls (h s).2 = calls s ++ cs ->
  snapshotAfter p h s = default (images p) (last (onChangeCalls cs)).
Proof. intros H. unfold snapshotAfter. by rewrite (emittedBy_calls h s cs H). Qed.

Lemma onChangeCalls_report errors : onChangeCalls (validationReport errors) = [].
Proof. by destruct errors. Qed.

(** Lines 425-436 when validation throws: the handler is left there. *)
Lemma handleFiles_thrown env p fileArray e s :
  fileArray <> [] ->
  Z.of_nat (length (images p) + length fileArray) <= maxImages p ->
  validateAll p fileArray [] [] s = (Threw e, s) ->
  handleFiles env p (Some fileArray) s = (Threw e, s).
Proof.
  intros Hne Hfit Hval. unfold handleFiles.
  destruct fileArray as [|f fs]; [done|].
  change (length (f :: fs) =? 0)%nat with false. cbv iota.
  replace (Z.of_nat (length (images p) + length (f :: fs)) >? maxImages p)
    with false by (symmetry; rewrite Z.gtb_ltb; apply Z.ltb_ge; lia).
  unfold bind at 1. by rewrite Hval.
Qed.

(** What the owner holds after a batch: the list as it was, or the list
    with one record per accepted file behind it. *)
Lemma add_cases env p s files :
  ImageList.add env p s files = images p
  \/ exists records,
       ImageList.add env p s files = images p ++ records
       /\ Forall2 (resolvesTo env p) (List.filter (accepts p) files) records
       /\ forall i r, records !! i = Some r ->
                      id r = idAt env (generated s + i).
Proof.
  unfold ImageList.add.
  destruct files as [|f0 fs0] eqn:Hfiles.
  { left. by rewrite (snapshotAfter_calls p _ s []); [|simpl; rewrite app_nil_r]. }
  rewrite <- Hfiles. assert (Hne : files <> []) by (by rewrite Hfiles).
  clear Hfiles f0 fs0.
  destruct (Z_le_gt_dec (Z.of_nat (length (images p) + length files))
              (maxImages p)) as [Hfit|Hover].
  2:{ left. rewrite (snapshotAfter_calls p _ s [CallToast (tooManyToast p)]);
        [done|]. by rewrite handleFiles_over. }
  destruct (validateAll_cases p files [] [] s) as [[e He]|[errors He]].
  { left. rewrite (snapshotAfter_calls p _ s []); [done|].
    rewrite (handleFiles_thrown env p files e s); [|done..].
    simpl. by rewrite app_nil_r. }
  simpl in He.
  destruct (List.filter (accepts p) files) as [|v vs] eqn:Hvalid.
  { left. rewrite (snapshotAfter_calls p _ s (validationReport errors)).
    - by rewrite onChangeCalls_report.
    - by rewrite (handleFiles_validated env p files _ _ s Hne Hfit He). }
  destruct (resolves_or_fails env p (v :: vs)) as [Hall|Hex].
  - destruct (process_committed env p (v :: vs) (validationReport errors) s)
      as (records & Hrun & Hrec & Hid); [done|done|].
    right. exists records. split; [|done].
    rewrite (snapshotAfter_calls p _ s
               (validationReport errors
                ++ [CallOnChange (images p ++ records);
                    CallToast (successToast (length (v :: vs)))])).
    + rewrite onChangeCalls_app, onChangeCalls_report. done.
    + rewrite (handleFiles_validated env p files _ _ s Hne Hfit He).
      by rewrite Hrun.
  - destruct (process_abandoned env p (v :: vs) (validationReport errors) s Hex)
      as (resolved & failing & rest & e & Hsplit & Hres & Hfail & Hrun).
    left.
    rewrite (snapshotAfter_calls p _ s
               (validationReport errors ++ [CallToast (failureToast e)])).
    + rewrite onChangeCalls_app, onChangeCalls_report. done.
    + rewrite (handleFiles_validated env p files _ _ s Hne Hfit He).
      by rewrite Hrun.
Qed.

(** ** The list operations *)

(** C9. For every list and every valid index i, removing the image at i
    hands the owner (in one [onChange]) a list that is one shorter, holds
    exactly the records of the list minus the one at i, and keeps the
    others in their order: those before i stay where they are, those
    after i move down by one. *)
Theorem remove_shifts_down p s i x :
  images p !! i = Some x ->
  handleRemoveImage p i s
  = (Returned tt, logged [CallOnChange (ImageList.remove p s i)] s)
  /\ length (ImageList.remove p s i) = (length (images p) - 1)%nat
  /\ images p ≡ₚ x :: ImageList.remove p s i
  /\ ImageList.remove p s i = take i (images p) ++ drop (S i) (images p)
  /\ (forall k, (k < i)%nat -> ImageList.remove p s i !! k = images p !! k)
  /\ (forall k, (i <= k)%nat ->
        ImageList.remove p s i !! k = images p !! S k).
Proof.
  intros Hx. rewrite remove_delete. split; [apply handleRemoveImage_run|].
  split; [apply length_delete; eauto|].
  split; [by apply delete_Permutation|].
  split; [apply delete_take_drop|].
  split; intros k Hk.
  - by apply list_lookup_delete_lt.
  - by apply list_lookup_delete_ge.
Qed.

Lemma remove_shifts_down_witness :
  [itemA; itemB; itemC] !! 1%nat = Some itemB
  /\ ImageList.remove (defaultProps [itemA; itemB; itemC]) mounted 1
     = [itemA; itemC].
Proof.
  split; [reflexivity|].
  destruct (remove_shifts_down (defaultProps [itemA; itemB; itemC]) mounted 1
              itemB eq_refl) as (_ & _ & _ & H & _).
  rewrite H. reflexivity.
Defined.

(** C4. Promoting the image at index 0 leaves the list as it is (and
    calls nothing).  Promoting the image at a valid index i > 0 hands the
    owner the list with that record first and all the others behind it in
    their old order; for a list of three, promoting index 2 gives
    [L[2], L[0], L[1]]. *)
Theorem promoteToCover_moves_to_front p s :
  (ImageList.promoteToCover p s 0 = images p
   /\ handleSetAsCover p 0 s = (Returned tt, s))
  /\ (forall i x, (0 < i)%nat -> images p !! i = Some x ->
        ImageList.promoteToCover p s i
        = x :: take i (images p) ++ drop (S i) (images p)
        /\ onChangeCalls (emittedBy (handleSetAsCover p i) s)
           = [ImageList.promoteToCover p s i])
  /\ (forall a b c, images p = [a; b; c] ->
        ImageList.promoteToCover p s 2 = [c; a; b]).
Proof.
  split; [|split].
  - by rewrite promoteToCover_eq.
  - intros i x Hi Hx. rewrite promoteToCover_eq.
    destruct i as [|n]; [lia|]. rewrite Hx, delete_take_drop.
    split; [done|].
    rewrite (emittedBy_logged _ _ _ _
               (handleSetAsCover_run p (S n) x s (Nat.neq_succ_0 n) Hx)).
    simpl. by rewrite delete_take_drop.
  - intros a b c HL. rewrite promoteToCover_eq, HL. done.
Qed.

Lemma promoteToCover_moves_to_front_witness :
  (0 < 2)%nat /\ [itemA; itemB; itemC] !! 2%nat = Some itemC
  /\ ImageList.promoteToCover (defaultProps [itemA; itemB; itemC]) mounted 2
     = [itemC; itemA; itemB].
Proof.
  split; [lia|]. split; [reflexivity|].
  destruct (promoteToCover_moves_to_front
              (defaultProps [itemA; itemB; itemC]) mounted) as (_ & H & H3).
  destruct (H 2%nat itemC ltac:(lia) eq_refl) as [Heq _].
  rewrite Heq. reflexivity.
Defined.

(** C3. For every list L and valid indices i and j, the list after a
    drag from i to j is a permutation of L (same records, same identifiers,
    same length); when reordering is enabled and i differs from j it is L
    with the record at i taken out and put back at position j of what
    remained; dragging back from j to i restores L; a drag from i to i
    changes nothing.  The indices 0 and length - 1 are instances. *)
Theorem reorder_permutes_and_inverts p s i j :
  (i < length (images p))%nat -> (j < length (images p))%nat ->
  ImageList.reorder p s i j ≡ₚ images p
  /\ id <$> ImageList.reorder p s i j ≡ₚ id <$> images p
  /\ length (ImageList.reorder p s i j) = length (images p)
  /\ (enableReorder p = true -> i <> j ->
        exists x, images p !! i = Some x
          /\ ImageList.reorder p s i j
             = take j (delete i (images p)) ++ x :: drop j (delete i (images p))
          /\ ImageList.reorder p s i j !! j = Some x)
  /\ (forall s', i <> j ->
        ImageList.reorder (withImages p (ImageList.reorder p s i j)) s' j i
        = images p)
  /\ (i = j -> ImageList.reorder p s i j = images p
               /\ onChangeCalls (emittedBy (ImageList.drag p i j) s) = []).
Proof.
  intros Hi Hj.
  destruct (lookup_lt_is_Some_2 _ _ Hi) as [x Hx].
  assert (Hperm : ImageList.reorder p s i j ≡ₚ images p).
  { rewrite reorder_eq, Hx. destruct (enableReorder p); [|done].
    destruct (decide (i = j)); [done|]. by apply moved_Permutation. }
  split; [done|]. split; [by rewrite Hperm|].
  split; [by rewrite Hperm|].
  split; [|split].
  - intros He Hne. exists x. rewrite reorder_eq, He, Hx.
    destruct (decide (i = j)); [done|]. split; [done|]. split; [done|].
    by apply (moved_back i j x (images p) Hx Hj).
  - intros s' Hne. rewrite (reorder_eq p s), Hx.
    destruct (enableReorder p) eqn:He.
    + destruct (decide (i = j)); [done|].
      destruct (moved_back i j x (images p) Hx Hj) as [Hback Hinv].
      rewrite reorder_eq. simpl. rewrite He, Hback.
      destruct (decide (j = i)); [done|]. apply Hinv.
    + rewrite reorder_eq. simpl. by rewrite He.
  - intros ->. split.
    + rewrite reorder_eq, Hx. destruct (enableReorder p); [|done].
      by destruct (decide (j = j)).
    + unfold ImageList.drag, handleDragStart, handleDragOver, bind, getState,
        setDraggedIndex, setDragOverIndex, ret.
      destruct (enableReorder p) eqn:He; simpl.
      * rewrite (emittedBy_calls _ s []); [done|]. simpl.
        rewrite handleDragEnd_noop; [simpl; by rewrite app_nil_r|].
        by do 3 right.
      * rewrite (emittedBy_calls _ s []); [done|]. simpl.
        rewrite handleDragEnd_noop; [simpl; by rewrite app_nil_r|].
        left. done.
Qed.

Lemma reorder_permutes_and_inverts_witness :
  (0 < length [itemA; itemB; itemC; itemD])%nat
  /\ (3 < length [itemA; itemB; itemC; itemD])%nat
  /\ ImageList.reorder (defaultProps [itemA; itemB; itemC; itemD]) mounted 0 3
     = [itemB; itemC; itemD; itemA]
  /\ ImageList.reorder (defaultProps [itemB; itemC; itemD; itemA]) mounted 3 0
     = [itemA; itemB; itemC; itemD].
Proof.
  split; [simpl; lia|]. split; [simpl; lia|].
  destruct (reorder_permutes_and_inverts
              (defaultProps [itemA; itemB; itemC; itemD]) mounted 0 3
              ltac:(simpl; lia) ltac:(simpl; lia))
    as (_ & _ & _ & Hform & Hback & _).
  destruct (Hform eq_refl ltac:(lia)) as (x & Hx & Heq & _).
  injection Hx as <-.
  split; [exact Heq|].
  specialize (Hback mounted ltac:(lia)). rewrite Heq in Hback. exact Hback.
Defined.

(** C8. For every list and every record in it, when a crop of that
    record completes with a new URL the owner is handed (in one
    [onChange]) the list with that record's [url] replaced: the record
    keeps its [id], its [file] and its position, the list keeps its
    length, and every other record is unchanged. *)
Theorem crop_replaces_only_url env p s index image croppedImage newUrl :
  images p !! index = Some image ->
  cropUrl env p (Some image) croppedImage s = (Returned newUrl, s) ->
  handleCropComplete env p index croppedImage s
  = (Returned tt,
     logged [CallOnChange (ImageList.updateOne env p s index croppedImage)] s)
  /\ ImageList.updateOne env p s index croppedImage !! index
     = Some (mkImageItem (id image) newUrl (file image))
  /\ length (ImageList.updateOne env p s index croppedImage)
     = length (images p)
  /\ (forall k, k <> index ->
        ImageList.updateOne env p s index croppedImage !! k = images p !! k).
Proof.
  intros Hx Hurl.
  pose proof (handleCropComplete_run env p s index image croppedImage newUrl
                Hx Hurl) as Hrun.
  assert (Heq : ImageList.updateOne env p s index croppedImage
                = <[index := mkImageItem (id image) newUrl (file image)]>
                    (images p)).
  { unfold ImageList.updateOne, snapshotAfter.
    by rewrite (emittedBy_logged _ _ _ _ Hrun). }
  rewrite Heq. split; [done|].
  split; [apply list_lookup_insert_eq; by eapply lookup_lt_Some|].
  split; [apply length_insert|].
  intros k Hk. by apply list_lookup_insert_ne.
Qed.

Lemma crop_replaces_only_url_witness :
  [itemA; itemB; itemC] !! 1%nat = Some itemB
  /\ cropUrl sampleBrowser (defaultProps [itemA; itemB; itemC]) (Some itemB)
       (inl (BlobOf "cropped")) mounted
     = (Returned "data:image/jpeg;base64,BBBB", mounted)
  /\ ImageList.updateOne sampleBrowser (defaultProps [itemA; itemB; itemC])
       mounted 1 (inl (BlobOf "cropped")) !! 1%nat
     = Some (mkImageItem "img_2_b" "data:image/jpeg;base64,BBBB" None).
Proof.
  split; [reflexivity|]. split; [reflexivity|].
  exact (proj1 (proj2 (crop_replaces_only_url sampleBrowser
                         (defaultProps [itemA; itemB; itemC]) mounted 1 itemB
                         (inl (BlobOf "cropped"))
                         "data:image/jpeg;base64,BBBB" eq_refl eq_refl))).
Defined.

(** C10. The actions that change nothing call [onChange] zero times:
    promoting the image at index 0 returns at once; a drag that ends on
    the card it started from, or with no dragged or no hovered index on
    record, only clears the two indices; an empty (or absent) file
    selection, from the file input or dropped, returns at once. *)
Theorem noop_actions_do_not_call_onChange env p s files :
  files = None \/ files = Some [] ->
  draggedIndex s = dragOverIndex s \/ draggedIndex s = None
  \/ dragOverIndex s = None ->
  (handleSetAsCover p 0 s = (Returned tt, s)
   /\ onChangeCalls (emittedBy (handleSetAsCover p 0) s) = [])
  /\ (handleDragEnd p s = (Returned tt, dragCleared s)
      /\ onChangeCalls (emittedBy (handleDragEnd p) s) = [])
  /\ (handleFiles env p files s = (Returned tt, s)
      /\ onChangeCalls (emittedBy (handleFiles env p files) s) = [])
  /\ onChangeCalls (emittedBy (handleFileInput env p files) s) = []
  /\ onChangeCalls (emittedBy (handleDrop env p files) s) = [].
Proof.
  intros Hfiles Hdrag.
  assert (Hend : handleDragEnd p s = (Returned tt, dragCleared s)).
  { apply handleDragEnd_noop. destruct Hdrag as [H|[H|H]]; auto. }
  pose proof (handleFiles_empty env p files s Hfiles) as Hsel.
  assert (Hnone : onChangeCalls (emittedBy (handleFiles env p files) s) = []).
  { rewrite (emittedBy_calls _ s []); [done|]. rewrite Hsel. simpl.
    by rewrite app_nil_r. }
  split; [|split; [|split; [|split]]].
  - split; [done|].
    rewrite (emittedBy_calls _ s []); [done|]. simpl. by rewrite app_nil_r.
  - split; [done|].
    rewrite (emittedBy_calls _ s []); [done|]. rewrite Hend. simpl.
    by rewrite app_nil_r.
  - done.
  - exact Hnone.
  - rewrite (emittedBy_calls _ s []); [done|].
    destruct Hfiles as [->| ->]; simpl; by rewrite app_nil_r.
Qed.

Lemma noop_actions_do_not_call_onChange_witness :
  (Some (@nil File) = None \/ Some (@nil File) = Some [])
  /\ (draggedIndex draggingOverItself = dragOverIndex draggingOverItself
      \/ draggedIndex draggingOverItself = None
      \/ dragOverIndex draggingOverItself = None)
  /\ onChangeCalls
       (emittedBy (handleDragEnd (defaultProps [itemA; itemB; itemC]))
          draggingOverItself) = []
  /\ onChangeCalls
       (emittedBy (handleFiles sampleBrowser
                     (defaultProps [itemA; itemB; itemC]) (Some []))
          draggingOverItself) = [].
Proof.
  split; [by right|]. split; [by left|].
  destruct (noop_actions_do_not_call_onChange sampleBrowser
              (defaultProps [itemA; itemB; itemC]) draggingOverItself
              (Some []) (or_intror eq_refl) (or_introl eq_refl))
    as (_ & [_ Hdrag] & [_ Hsel] & _).
  split; [exact Hdrag|exact Hsel].
Defined.

(** ** The intake handler as a whole *)

(** Against C1 as it stands: an empty selection meets the condition of
    the count ceiling with a list that is already over it, and nothing is
    reported: line 411 returns before the ceiling is looked at. *)
Lemma empty_selection_over_ceiling_not_reported :
  Z.of_nat (length (images overfullProps) + length (@nil File))
  > maxImages overfullProps
  /\ handleFiles sampleBrowser overfullProps (Some []) mounted
     = (Returned tt, mounted)
  /\ toastCalls
       (emittedBy (handleFiles sampleBrowser overfullProps (Some [])) mounted)
     = [].
Proof. split; [reflexivity|]. split; reflexivity. Qed.

(** C1, amended.  For every current list and every incoming batch of at
    least one file, if currentCount + incomingCount > maxImages then the
    handler returns after one aggregate error and nothing else: no file is
    validated or processed (no identifier is drawn, [uploading] is not
    touched, no validation error is reported, whatever the allow-list),
    [onChange] is not called and the owner keeps the list. *)
Theorem batch_over_ceiling_rejected env p s fileArray :
  fileArray <> [] ->
  Z.of_nat (length (images p) + length fileArray) > maxImages p ->
  handleFiles env p (Some fileArray) s
  = (Returned tt, logged [CallToast (tooManyToast p)] s)
  /\ toastCalls (emittedBy (handleFiles env p (Some fileArray)) s)
     = [tooManyToast p]
  /\ onChangeCalls (emittedBy (handleFiles env p (Some fileArray)) s) = []
  /\ ImageList.add env p s fileArray = images p.
Proof.
  intros Hne Hover.
  pose proof (handleFiles_over env p fileArray s Hne Hover) as Hrun.
  split; [done|].
  unfold ImageList.add, snapshotAfter.
  by rewrite (emittedBy_logged _ _ _ _ Hrun).
Qed.

Lemma batch_over_ceiling_rejected_witness :
  replicate 10 photoA <> []
  /\ Z.of_nat (length (images (defaultProps [itemA]))
               + length (replicate 10 photoA))
     > maxImages (defaultProps [itemA])
  /\ handleFiles sampleBrowser (defaultProps [itemA])
       (Some (replicate 10 photoA)) mounted
     = (Returned tt,
        logged [CallToast (mkToast "Error" "Maximum 10 images allowed"
                             (Some "destructive"))] mounted).
Proof.
  split; [discriminate|]. split; [reflexivity|].
  exact (proj1 (batch_over_ceiling_rejected sampleBrowser
                  (defaultProps [itemA]) mounted (replicate 10 photoA)
                  ltac:(discriminate) eq_refl)).
Defined.

(** C2. For every batch within the count ceiling that validation has
    split into rejections and accepted files, if the resolution of an
    accepted file fails then the handler stops at the first such file:
    the records built for the files before it are dropped, [onChange] is
    not called, exactly one failure (the toast titled "Error", with what
    that file was rejected with) is reported, and the owner keeps the
    list. *)
Theorem failed_resolution_abandons_batch env p s fileArray errors validFiles :
  Z.of_nat (length (images p) + length fileArray) <= maxImages p ->
  validateAll p fileArray [] [] s = (Returned (errors, validFiles), s) ->
  Exists (fails env p) validFiles ->
  exists resolved failing rest e,
    validFiles = resolved ++ failing :: rest
    /\ Forall (resolves env p) resolved
    /\ resolution env p failing = Rejected e
    /\ handleFiles env p (Some fileArray) s
       = (Returned tt,
          processed (validationReport errors ++ [CallToast (failureToast e)])
            (length resolved) s)
    /\ onChangeCalls (emittedBy (handleFiles env p (Some fileArray)) s) = []
    /\ List.filter (fun t => String.eqb (title t) "Error")
         (toastCalls (emittedBy (handleFiles env p (Some fileArray)) s))
       = [failureToast e]
    /\ ImageList.add env p s fileArray = images p.
Proof.
  intros Hfit Hval Hex.
  assert (Hne : fileArray <> []).
  { intros ->. simpl in Hval. injection Hval as <- <-.
    by apply Exists_nil in Hex. }
  pose proof (handleFiles_validated env p fileArray errors validFiles s
                Hne Hfit Hval) as Hrun.
  destruct (process_abandoned env p validFiles (validationReport errors) s Hex)
    as (resolved & failing & rest & e & Hsplit & Hres & Hfail & Hproc).
  exists resolved, failing, rest, e. do 3 (split; [done|]).
  destruct validFiles as [|v vs]; [by destruct resolved|].
  rewrite Hproc in Hrun. split; [done|].
  assert (Hemit : emittedBy (handleFiles env p (Some fileArray)) s
                  = validationReport errors ++ [CallToast (failureToast e)]).
  { apply emittedBy_calls. by rewrite Hrun. }
  unfold ImageList.add, snapshotAfter. rewrite Hemit.
  rewrite onChangeCalls_app, onChangeCalls_report.
  split; [done|]. split; [|done].
  by destruct errors.
Qed.

Lemma failed_resolution_abandons_batch_witness :
  Z.of_nat (length (images (uploadingProps [itemA]))
            + length [photoA; notes; broken; photoB])
  <= maxImages (uploadingProps [itemA])
  /\ Exists (fails sampleBrowser (uploadingProps [itemA])) [photoA; broken; photoB]
  /\ exists resolved failing rest e,
       [photoA; broken; photoB] = resolved ++ failing :: rest
       /\ Forall (resolves sampleBrowser (uploadingProps [itemA])) resolved
       /\ resolution sampleBrowser (uploadingProps [itemA]) failing = Rejected e
       /\ handleFiles sampleBrowser (uploadingProps [itemA])
            (Some [photoA; notes; broken; photoB]) mounted
          = (Returned tt,
             processed
               (validationReport
                  ["File notes.txt: invalid format. Allowed: JPEG, JPG, PNG, WEBP, GIF"]
                ++ [CallToast (failureToast e)])
               (length resolved) mounted)
       /\ onChangeCalls
            (emittedBy (handleFiles sampleBrowser (uploadingProps [itemA])
                          (Some [photoA; notes; broken; photoB])) mounted) = []
       /\ List.filter (fun t => String.eqb (title t) "Error")
            (toastCalls
               (emittedBy (handleFiles sampleBrowser (uploadingProps [itemA])
                             (Some [photoA; notes; broken; photoB])) mounted))
          = [failureToast e]
       /\ ImageList.add sampleBrowser (uploadingProps [itemA]) mounted
            [photoA; notes; broken; photoB]
          = images (uploadingProps [itemA]).
Proof.
  assert (Hex : Exists (fails sampleBrowser (uploadingProps [itemA]))
                  [photoA; broken; photoB]).
  { apply Exists_cons_tl, Exists_cons_hd. by eexists. }
  split; [simpl; lia|]. split; [exact Hex|].
  exact (failed_resolution_abandons_batch sampleBrowser (uploadingProps [itemA])
           mounted [photoA; notes; broken; photoB] _ _
           ltac:(simpl; lia) eq_refl Hex).
Defined.

(** [validateFile] throws only what the render of lines 615-618 throws
    on the same props: the two evaluate the same expression over
    [allowedTypes]. *)
Lemma validateFile_throws_as_render p f s e s' :
  validateFile p f s = (Threw e, s') ->
  forall s0, render_labels p s0 = (Threw e, s0).
Proof.
  unfold validateFile, render_labels, bind.
  destruct (negb (Js.includes (allowedTypes p) (type f))).
  - destruct (formatNames_pure (allowedTypes p)) as [[names Hn]|Ht].
    + by rewrite Hn.
    + rewrite Ht. intros [= <- _] s0. by rewrite Ht.
  - by destruct (size f >? maxFileSize p).
Qed.

(** C5. For every file, [validateFile] returns no error when the type of
    the file is in [allowedTypes] (the same string) and its size is at
    most [maxFileSize], and the one size-violation message when the type is
    listed and the size exceeds [maxFileSize].  In a component that has
    rendered (lines 615-618 have run over the same [allowedTypes]) it
    returns the one type-violation message when the type is not listed,
    and it returns whatever the file: it never throws there, since it
    throws only what the render throws. *)
Theorem validateFile_verdicts p s f :
  (type f ∈ allowedTypes p -> size f <= maxFileSize p ->
     validateFile p f s = (Returned None, s))
  /\ (type f ∈ allowedTypes p -> size f > maxFileSize p ->
        validateFile p f s
        = (Returned
             (Some ("File " +:+ name f +:+ ": exceeds size limit. Maximum "
                    +:+ Js.toFixed0 (maxFileSize p) (1024 * 1024) +:+ "MB")),
           s))
  /\ (forall labels s0,
        render_labels p s0 = (Returned labels, s0) ->
        (type f ∉ allowedTypes p ->
           validateFile p f s = (Returned (Some (typeViolation labels f)), s))
        /\ (type f ∈ allowedTypes p -> size f > maxFileSize p ->
              validateFile p f s
              = (Returned (Some (sizeViolation labels f)), s))
        /\ (exists error, validateFile p f s = (Returned error, s)))
  /\ (forall e s',
        validateFile p f s = (Threw e, s') ->
        forall s0, render_labels p s0 = (Threw e, s0)).
Proof.
  split; [|split; [|split]].
  - intros Hin Hsize. apply validateFile_accepts.
    unfold accepts, Js.includes. rewrite bool_decide_true by done. simpl.
    apply negb_true_iff. rewrite Z.gtb_ltb. apply Z.ltb_ge. lia.
  - intros Hin Hsize. unfold validateFile, Js.includes.
    rewrite bool_decide_true by done. simpl.
    by rewrite (proj2 (Z.gtb_gt _ _) Hsize).
  - intros labels s0 Hr. rewrite (validateFile_rendered p labels s0 Hr).
    unfold verdict, Js.includes.
    split; [|split].
    + intros Hin. by rewrite bool_decide_false by done.
    + intros Hin Hsize. rewrite bool_decide_true by done. simpl.
      by rewrite (proj2 (Z.gtb_gt _ _) Hsize).
    + by eexists.
  - intros e s'. apply validateFile_throws_as_render.
Qed.

Lemma validateFile_verdicts_witness :
  render_labels (defaultProps []) mounted
  = (Returned ("5", "JPEG, JPG, PNG, WEBP, GIF"), mounted)
  /\ validateFile (defaultProps []) notes mounted
     = (Returned
          (Some "File notes.txt: invalid format. Allowed: JPEG, JPG, PNG, WEBP, GIF"),
        mounted)
  /\ validateFile (defaultProps []) (mkFile "big.png" "image/png" 5242881)
       mounted
     = (Returned (Some "File big.png: exceeds size limit. Maximum 5MB"),
        mounted)
  /\ validateFile (defaultProps []) (mkFile "fit.png" "image/png" 5242880)
       mounted
     = (Returned None, mounted)
  /\ validateFile slashlessProps photoA mounted
     = (Threw (TypeError_reading "toUpperCase"), mounted)
  /\ render_labels slashlessProps mounted
     = (Threw (TypeError_reading "toUpperCase"), mounted).
Proof.
  split; [reflexivity|].
  split; [|split; [|split; [|split]]].
  - apply (proj1 (proj1 (proj2 (proj2 (validateFile_verdicts (defaultProps [])
                                         mounted notes)))
                    ("5", "JPEG, JPG, PNG, WEBP, GIF") mounted eq_refl)).
    apply (proj1 (bool_decide_eq_false _)). reflexivity.
  - apply (proj1 (proj2 (validateFile_verdicts (defaultProps []) mounted
                           (mkFile "big.png" "image/png" 5242881)))).
    + apply (proj1 (bool_decide_eq_true _)). reflexivity.
    + reflexivity.
  - apply (proj1 (validateFile_verdicts (defaultProps []) mounted
                    (mkFile "fit.png" "image/png" 5242880))).
    + apply (proj1 (bool_decide_eq_true _)). reflexivity.
    + vm_compute. discriminate.
  - reflexivity.
  - apply (proj2 (proj2 (proj2 (validateFile_verdicts slashlessProps mounted
                                   photoA)))
             (TypeError_reading "toUpperCase") mounted eq_refl mounted).
Defined.

(** Against C6 as it stands: in a batch of one file that validation
    rejects no file is accepted, so every accepted file resolves, and
    [onChange] is not called at all: line 448 skips the processing. *)
Lemma rejected_batch_does_not_call_onChange :
  validateAll (defaultProps []) [notes] [] [] mounted
  = (Returned
       (["File notes.txt: invalid format. Allowed: JPEG, JPG, PNG, WEBP, GIF"],
        []), mounted)
  /\ Forall (resolves sampleBrowser (defaultProps [])) []
  /\ onChangeCalls
       (emittedBy (handleFiles sampleBrowser (defaultProps []) (Some [notes]))
          mounted) = [].
Proof. split; [reflexivity|]. split; [constructor|reflexivity]. Qed.

(** C6, amended.  For every batch within the count ceiling of which
    validation accepts at least one file, if all accepted files resolve
    then the handler calls [onChange] exactly once, with the old list
    followed by one new record per accepted file, in the order in which
    the files were selected; the k-th of them carries the k-th identifier
    drawn, the URL its file resolved to, and the file.  When the old list
    is empty the first of the new records is the cover. *)
Theorem accepted_batch_committed_once env p s fileArray errors validFiles :
  Z.of_nat (length (images p) + length fileArray) <= maxImages p ->
  validateAll p fileArray [] [] s = (Returned (errors, validFiles), s) ->
  validFiles <> [] ->
  Forall (resolves env p) validFiles ->
  exists records,
    onChangeCalls (emittedBy (handleFiles env p (Some fileArray)) s)
    = [images p ++ records]
    /\ ImageList.add env p s fileArray = images p ++ records
    /\ validFiles = List.filter (accepts p) fileArray
    /\ Forall2 (resolvesTo env p) validFiles records
    /\ (forall i r, records !! i = Some r -> id r = idAt env (generated s + i))
    /\ handleFiles env p (Some fileArray) s
       = (Returned tt,
          processed (validationReport errors
                     ++ [CallOnChange (images p ++ records);
                         CallToast (successToast (length validFiles))])
            (length validFiles) s)
    /\ (images p = [] ->
          exists first, records !! 0%nat = Some first
            /\ ImageList.cover (ImageList.add env p s fileArray) = Some first).
Proof.
  intros Hfit Hval Hsome Hall.
  assert (Hne : fileArray <> []).
  { intros ->. simpl in Hval. by injection Hval as <- <-. }
  pose proof (handleFiles_validated env p fileArray errors validFiles s
                Hne Hfit Hval) as Hrun.
  destruct (process_committed env p validFiles (validationReport errors) s
              Hsome Hall) as (records & Hproc & Hrec & Hid).
  exists records.
  destruct validFiles as [|v vs] eqn:Hv; [done|]. rewrite <- Hv in *.
  replace (match validFiles with
           | [] => (Returned tt, turnedAway (validationReport errors) s)
           | _ :: _ =>
               ((setUploading true;; tryProcess env p validFiles);;
                resetFileInput) (logged (validationReport errors) s)
           end)
    with (((setUploading true;; tryProcess env p validFiles);;
           resetFileInput) (logged (validationReport errors) s)) in Hrun
    by (by rewrite Hv).
  rewrite Hproc in Hrun.
  assert (Hemit : emittedBy (handleFiles env p (Some fileArray)) s
                  = validationReport errors
                    ++ [CallOnChange (images p ++ records);
                        CallToast (successToast (length validFiles))]).
  { apply emittedBy_calls. by rewrite Hrun. }
  assert (Hadd : ImageList.add env p s fileArray = images p ++ records).
  { unfold ImageList.add, snapshotAfter. rewrite Hemit.
    by rewrite onChangeCalls_app, onChangeCalls_report. }
  rewrite Hemit, onChangeCalls_app, onChangeCalls_report, Hadd.
  split; [done|]. split; [done|].
  split.
  { destruct (validateAll_cases p fileArray [] [] s) as [[e He]|[errors' He]];
      rewrite He in Hval; [done|]. by injection Hval as _ <-. }
  split; [done|]. split; [done|]. split; [done|].
  intros Hempty. rewrite Hempty. simpl.
  rewrite Hv in Hrec. apply Forall2_cons_inv_l in Hrec as (r & rs & _ & _ & ->).
  by exists r.
Qed.

Lemma accepted_batch_committed_once_witness :
  Z.of_nat (length (images (defaultProps [])) + length [photoA; photoB])
  <= maxImages (defaultProps [])
  /\ validateAll (defaultProps []) [photoA; photoB] [] [] mounted
     = (Returned ([], [photoA; photoB]), mounted)
  /\ [photoA; photoB] <> []
  /\ Forall (resolves sampleBrowser (defaultProps [])) [photoA; photoB]
  /\ onChangeCalls
       (emittedBy (handleFiles sampleBrowser (defaultProps [])
                     (Some [photoA; photoB])) mounted)
     = [[mkImageItem "img_1700000000000_4fzyo82mv"
           "data:image/jpeg;base64,AAAA" (Some photoA);
         mkImageItem "img_1700000000001_4fzyo82mv"
           "data:image/jpeg;base64,AAAA" (Some photoB)]]
  /\ ImageList.cover
       (ImageList.add sampleBrowser (defaultProps []) mounted [photoA; photoB])
     = Some (mkImageItem "img_1700000000000_4fzyo82mv"
               "data:image/jpeg;base64,AAAA" (Some photoA)).
Proof.
  assert (Hall : Forall (resolves sampleBrowser (defaultProps []))
                   [photoA; photoB]).
  { repeat constructor; by eexists. }
  split; [simpl; lia|]. split; [reflexivity|]. split; [discriminate|].
  split; [exact Hall|].
  destruct (accepted_batch_committed_once sampleBrowser (defaultProps [])
              mounted [photoA; photoB] [] [photoA; photoB]
              ltac:(simpl; lia) eq_refl ltac:(discriminate) Hall)
    as (records & Hcalls & Hadd & _).
  split.
  - rewrite Hcalls. rewrite <- Hadd. reflexivity.
  - reflexivity.
Defined.

(** ** Identifiers *)

Lemma ids_of_records (g : nat -> string) records : forall k,
  (forall i r, records !! i = Some r -> id r = g (k + i)%nat) ->
  id <$> records = g <$> seq k (length records).
Proof.
  induction records as [|r rs IH]; intros k Hid; [done|].
  simpl. f_equal.
  - rewrite (Hid 0%nat r eq_refl). f_equal. lia.
  - apply IH. intros i r' Hr. rewrite (Hid (S i) r' Hr). f_equal. lia.
Qed.

Lemma NoDup_ids_delete (imgs : list ImageItem) i :
  NoDup (id <$> imgs) -> NoDup (id <$> delete i imgs).
Proof.
  intros Hnd. rewrite list_fmap_delete.
  eapply sublist_NoDup; [exact Hnd|apply sublist_delete].
Qed.

(** Against C7 as it stands: when the clock and the random source repeat
    themselves, two files added together get the same identifier. *)
Lemma repeated_identifier :
  NoDup (id <$> images (defaultProps []))
  /\ ImageList.add repeatingBrowser (defaultProps []) mounted [photoA; photoB]
     = [mkImageItem "img_1700000000000_4fzyo82mv"
          "data:image/jpeg;base64,AAAA" (Some photoA);
        mkImageItem "img_1700000000000_4fzyo82mv"
          "data:image/jpeg;base64,AAAA" (Some photoB)]
  /\ ~ NoDup (id <$> ImageList.add repeatingBrowser (defaultProps []) mounted
                       [photoA; photoB]).
Proof.
  split; [constructor|]. split; [reflexivity|].
  intros Hnd. apply NoDup_cons in Hnd as [Hnotin _].
  apply Hnotin. apply list_elem_of_here.
Qed.

(** C7, amended.  The operations on a list leave its records their
    identifiers and keep the identifiers pairwise distinct when they were.
    Removing leaves the other records of the list, in their order;
    promoting or reordering a card of the list gives the same records in
    another order; a crop of a card of the list leaves the identifiers as
    they are, position by position.  An intake keeps the old records in
    front and gives the new ones the identifiers drawn from the clock and
    the random source at that time; the identifiers stay pairwise distinct
    when those drawn for the accepted files differ from one another and
    from the ones in the list. *)
Theorem distinct_ids_preserved env p s :
  NoDup (id <$> images p) ->
  (forall i,
     ImageList.remove p s i = delete i (images p)
     /\ sublist (ImageList.remove p s i) (images p)
     /\ id <$> ImageList.remove p s i = delete i (id <$> images p)
     /\ NoDup (id <$> ImageList.remove p s i))
  /\ (forall i, is_Some (images p !! i) ->
        ImageList.promoteToCover p s i ≡ₚ images p
        /\ id <$> ImageList.promoteToCover p s i ≡ₚ id <$> images p
        /\ NoDup (id <$> ImageList.promoteToCover p s i))
  /\ (forall i j, is_Some (images p !! i) -> is_Some (images p !! j) ->
        ImageList.reorder p s i j ≡ₚ images p
        /\ id <$> ImageList.reorder p s i j ≡ₚ id <$> images p
        /\ NoDup (id <$> ImageList.reorder p s i j))
  /\ (forall i croppedImage, is_Some (images p !! i) ->
        id <$> ImageList.updateOne env p s i croppedImage = id <$> images p
        /\ NoDup (id <$> ImageList.updateOne env p s i croppedImage))
  /\ (forall files,
        (exists records,
           ImageList.add env p s files = images p ++ records
           /\ id <$> records
              = idAt env <$> seq (generated s) (length records))
        /\ (NoDup ((id <$> images p)
                   ++ (idAt env
                       <$> seq (generated s)
                             (length (List.filter (accepts p) files)))) ->
            NoDup (id <$> ImageList.add env p s files))).
Proof.
  intros Hnd. split; [|split; [|split; [|split]]].
  - intros i. rewrite remove_delete.
    split; [done|]. split; [apply sublist_delete|].
    split; [apply list_fmap_delete|]. by apply NoDup_ids_delete.
  - intros i [x Hx].
    assert (Hperm : ImageList.promoteToCover p s i ≡ₚ images p).
    { rewrite promoteToCover_eq. destruct i as [|n]; [done|].
      rewrite Hx. symmetry. by apply delete_Permutation. }
    split; [done|]. split; by rewrite Hperm.
  - intros i j [x Hx] _.
    assert (Hperm : ImageList.reorder p s i j ≡ₚ images p).
    { rewrite reorder_eq, Hx. destruct (enableReorder p); [|done].
      destruct (decide (i = j)); [done|]. by apply moved_Permutation. }
    split; [done|]. split; by rewrite Hperm.
  - intros i croppedImage _.
    assert (Hids : id <$> ImageList.updateOne env p s i croppedImage
                   = id <$> images p).
    { destruct (updateOne_eq env p s i croppedImage)
        as [->|(image & newUrl & Hx & _ & ->)]; [done|].
      rewrite list_fmap_insert. simpl. apply list_insert_id.
      by rewrite list_lookup_fmap, Hx. }
    by rewrite Hids.
  - intros files.
    destruct (add_cases env p s files) as [->|(records & -> & Hrec & Hid)].
    + split; [|done]. exists []. by rewrite app_nil_r.
    + pose proof (ids_of_records (idAt env) records (generated s) Hid) as Hids.
      split; [by exists records|].
      intros Hfresh. rewrite fmap_app, Hids.
      by rewrite <- (Forall2_length _ _ _ Hrec).
Qed.

Lemma distinct_ids_preserved_witness :
  NoDup (id <$> images (defaultProps [itemA; itemB; itemC]))
  /\ is_Some (images (defaultProps [itemA; itemB; itemC]) !! 0%nat)
  /\ is_Some (images (defaultProps [itemA; itemB; itemC]) !! 2%nat)
  /\ id <$> ImageList.remove (defaultProps [itemA; itemB; itemC]) mounted 1
     = ["img_1_a"; "img_3_c"]
  /\ id <$> ImageList.promoteToCover (defaultProps [itemA; itemB; itemC])
              mounted 2
     ≡ₚ ["img_1_a"; "img_2_b"; "img_3_c"]
  /\ NoDup (id <$> ImageList.reorder (defaultProps [itemA; itemB; itemC])
                     mounted 0 2)
  /\ id <$> ImageList.updateOne sampleBrowser
              (defaultProps [itemA; itemB; itemC]) mounted 2
              (inr "data:image/jpeg;base64,CCCC")
     = ["img_1_a"; "img_2_b"; "img_3_c"]
  /\ NoDup (id <$> ImageList.add sampleBrowser
                     (defaultProps [itemA; itemB; itemC]) mounted
                     [photoA; notes; photoB]).
Proof.
  assert (Hnd : NoDup (id <$> images (defaultProps [itemA; itemB; itemC]))).
  { apply (bool_decide_unpack _). vm_compute. exact I. }
  assert (H0 : is_Some (images (defaultProps [itemA; itemB; itemC]) !! 0%nat))
    by (by eexists).
  assert (H2 : is_Some (images (defaultProps [itemA; itemB; itemC]) !! 2%nat))
    by (by eexists).
  destruct (distinct_ids_preserved sampleBrowser
              (defaultProps [itemA; itemB; itemC]) mounted Hnd)
    as (Hremove & Hpromote & Hreorder & Hupdate & Hadd).
  split; [exact Hnd|]. split; [exact H0|]. split; [exact H2|].
  split; [exact (proj1 (proj2 (proj2 (Hremove 1%nat))))|].
  split; [exact (proj1 (proj2 (Hpromote 2%nat H2)))|].
  split; [exact (proj2 (proj2 (Hreorder 0%nat 2%nat H0 H2)))|].
  split; [exact (proj1 (Hupdate 2%nat (inr "data:image/jpeg;base64,CCCC") H2))|].
  apply (proj2 (Hadd [photoA; notes; photoB])).
  apply (bool_decide_unpack _). vm_compute. exact I.
Defined.

(** ** The ceiling on the length of the list *)

(** What an intake does to the list, with the count that let it through. *)
Lemma add_cases_within env p s files :
  ImageList.add env p s files = images p
  \/ (Z.of_nat (length (images p) + length files) <= maxImages p
      /\ exists records,
           ImageList.add env p s files = images p ++ records
           /\ (length records <= length files)%nat).
Proof.
  destruct (Z_le_gt_dec (Z.of_nat (length (images p) + length files))
              (maxImages p)) as [Hfit|Hover].
  - destruct (add_cases env p s files) as [->|(records & -> & Hrec & _)];
      [by left|].
    right. split; [done|]. exists records. split; [done|].
    rewrite <- (Forall2_length _ _ _ Hrec). apply List.filter_length_le.
  - left. destruct files as [|f fs].
    + unfold ImageList.add.
      by rewrite (snapshotAfter_calls p _ s []); [|simpl; rewrite app_nil_r].
    + unfold ImageList.add.
      rewrite (snapshotAfter_calls p _ s [CallToast (tooManyToast p)]);
        [done|]. by rewrite handleFiles_over.
Qed.

Lemma delete_out_of_range {A} (a : list A) i :
  a !! i = None -> delete i a = a.
Proof.
  intros Hx. apply lookup_ge_None in Hx.
  rewrite delete_take_drop, (take_ge a i), (drop_ge a (S i)) by lia.
  apply app_nil_r.
Qed.

(** The lengths after the operations; promoting, reordering and
    cropping are taken on cards of the list. *)
Lemma operations_keep_within_ceiling_lengths env p s :
  Z.of_nat (length (images p)) <= maxImages p ->
  (forall files,
     Z.of_nat (length (ImageList.add env p s files)) <= maxImages p)
  /\ (forall i, (length (ImageList.remove p s i) <= length (images p))%nat)
  /\ (forall i, is_Some (images p !! i) ->
        length (ImageList.promoteToCover p s i) = length (images p))
  /\ (forall i j, is_Some (images p !! i) -> is_Some (images p !! j) ->
        length (ImageList.reorder p s i j) = length (images p))
  /\ (forall i croppedImage, is_Some (images p !! i) ->
        length (ImageList.updateOne env p s i croppedImage)
        = length (images p)).
Proof.
  intros Hin. split; [|split; [|split; [|split]]].
  - intros files.
    destruct (add_cases_within env p s files)
      as [->|(Hfit & records & -> & Hlen)]; [done|].
    rewrite length_app. lia.
  - intros i. rewrite remove_delete.
    destruct (images p !! i) as [x|] eqn:Hx.
    + rewrite length_delete by eauto. lia.
    + by rewrite delete_out_of_range.
  - intros i [x Hx]. rewrite promoteToCover_eq.
    destruct i as [|n]; [done|]. rewrite Hx.
    simpl. rewrite length_delete by eauto.
    apply lookup_lt_Some in Hx. lia.
  - intros i j [x Hx] _. rewrite reorder_eq, Hx.
    destruct (enableReorder p); [|done].
    destruct (decide (i = j)); [done|]. by apply moved_length.
  - intros i croppedImage _.
    destruct (updateOne_eq env p s i croppedImage)
      as [->|(image & newUrl & _ & _ & ->)]; [done|].
    apply length_insert.
Qed.

(** X1. A list that is within [maxImages] stays within it under every
    operation: an intake never takes the list past the ceiling, removing
    never makes it longer, and promoting, reordering or cropping a card of
    the list keeps its length. *)
Theorem operations_keep_within_ceiling env p s :
  Z.of_nat (length (images p)) <= maxImages p ->
  (forall files,
     Z.of_nat (length (ImageList.add env p s files)) <= maxImages p)
  /\ (forall i, (length (ImageList.remove p s i) <= length (images p))%nat)
  /\ (forall i, is_Some (images p !! i) ->
        length (ImageList.promoteToCover p s i) = length (images p))
  /\ (forall i j, is_Some (images p !! i) -> is_Some (images p !! j) ->
        length (ImageList.reorder p s i j) = length (images p))
  /\ (forall i croppedImage, is_Some (images p !! i) ->
        length (ImageList.updateOne env p s i croppedImage)
        = length (images p)).
Proof. apply operations_keep_within_ceiling_lengths. Qed.

Lemma operations_keep_within_ceiling_witness :
  Z.of_nat (length (images (defaultProps [itemA; itemB]))) <= 10
  /\ is_Some (images (defaultProps [itemA; itemB]) !! 0%nat)
  /\ is_Some (images (defaultProps [itemA; itemB]) !! 1%nat)
  /\ Z.of_nat (length (ImageList.add sampleBrowser (defaultProps [itemA; itemB])
                         mounted [photoA; notes; photoB])) <= 10
  /\ length (ImageList.promoteToCover (defaultProps [itemA; itemB]) mounted 1)
     = 2%nat
  /\ length (ImageList.reorder (defaultProps [itemA; itemB]) mounted 0 1)
     = 2%nat
  /\ length (ImageList.updateOne sampleBrowser (defaultProps [itemA; itemB])
               mounted 1 (inl (BlobOf "cropped")))
     = 2%nat.
Proof.
  assert (H0 : is_Some (images (defaultProps [itemA; itemB]) !! 0%nat))
    by (by eexists).
  assert (H1 : is_Some (images (defaultProps [itemA; itemB]) !! 1%nat))
    by (by eexists).
  destruct (operations_keep_within_ceiling sampleBrowser
              (defaultProps [itemA; itemB]) mounted ltac:(simpl; lia))
    as (Hadd & _ & Hpromote & Hreorder & Hupdate).
  split; [simpl; lia|]. split; [exact H0|]. split; [exact H1|].
  split; [apply Hadd|].
  split; [exact (Hpromote 1%nat H1)|].
  split; [exact (Hreorder 0%nat 1%nat H0 H1)|].
  exact (Hupdate 1%nat (inl (BlobOf "cropped")) H1).
Defined.

(** Lines 425-492 for a batch whose accepted files all resolve. *)
Lemma handleFiles_committed env p s fileArray errors validFiles :
  Z.of_nat (length (images p) + length fileArray) <= maxImages p ->
  validateAll p fileArray [] [] s = (Returned (errors, validFiles), s) ->
  validFiles <> [] ->
  Forall (resolves env p) validFiles ->
  exists records,
    handleFiles env p (Some fileArray) s
    = (Returned tt,
       processed (validationReport errors
                  ++ [CallOnChange (images p ++ records);
                      CallToast (successToast (length validFiles))])
         (length validFiles) s)
    /\ Forall2 (resolvesTo env p) validFiles records
    /\ forall i r, records !! i = Some r -> id r = idAt env (generated s + i).
Proof.
  intros Hfit Hval Hsome Hall.
  assert (Hne : fileArray <> []).
  { intros ->. simpl in Hval. by injection Hval as <- <-. }
  destruct (process_committed env p validFiles (validationReport errors) s
              Hsome Hall) as (records & Hproc & Hrec & Hid).
  exists records. split; [|done].
  rewrite (handleFiles_validated env p fileArray errors validFiles s
             Hne Hfit Hval).
  by destruct validFiles.
Qed.

(** Lines 425-492 for a batch of which an accepted file fails. *)
Lemma handleFiles_abandoned env p s fileArray errors validFiles :
  Z.of_nat (length (images p) + length fileArray) <= maxImages p ->
  validateAll p fileArray [] [] s = (Returned (errors, validFiles), s) ->
  Exists (fails env p) validFiles ->
  exists resolved failing rest e,
    validFiles = resolved ++ failing :: rest
    /\ Forall (resolves env p) resolved
    /\ resolution env p failing = Rejected e
    /\ handleFiles env p (Some fileArray) s
       = (Returned tt,
          processed (validationReport errors ++ [CallToast (failureToast e)])
            (length resolved) s).
Proof.
  intros Hfit Hval Hex.
  assert (Hne : fileArray <> []).
  { intros ->. simpl in Hval. injection Hval as <- <-.
    by apply Exists_nil in Hex. }
  destruct (process_abandoned env p validFiles (validationReport errors) s Hex)
    as (resolved & failing & rest & e & Hsplit & Hres & Hfail & Hproc).
  exists resolved, failing, rest, e. do 3 (split; [done|]).
  rewrite (handleFiles_validated env p fileArray errors validFiles s
             Hne Hfit Hval).
  destruct validFiles; [by destruct resolved|done].
Qed.

(** X2. The ceiling is inclusive: a batch of accepted files that fills
    the list exactly to [maxImages] is committed in one [onChange], and
    from then on every batch of at least one file is turned away with the
    aggregate error alone. *)
Theorem ceiling_is_inclusive env p s fileArray :
  fileArray <> [] ->
  Z.of_nat (length (images p) + length fileArray) = maxImages p ->
  Forall (fun f => accepts p f = true) fileArray ->
  Forall (resolves env p) fileArray ->
  Z.of_nat (length (ImageList.add env p s fileArray)) = maxImages p
  /\ onChangeCalls (emittedBy (handleFiles env p (Some fileArray)) s)
     = [ImageList.add env p s fileArray]
  /\ (forall s' more, more <> [] ->
        emittedBy (handleFiles env
                     (withImages p (ImageList.add env p s fileArray))
                     (Some more)) s'
        = [CallToast (tooManyToast p)]).
Proof.
  intros Hne Hfull Hacc Hall.
  pose proof (validateAll_accepts p fileArray [] [] s Hacc) as Hval.
  simpl in Hval.
  destruct (handleFiles_committed env p s fileArray [] fileArray
              ltac:(lia) Hval Hne Hall) as (records & Hrun & Hrec & _).
  assert (Hemit : emittedBy (handleFiles env p (Some fileArray)) s
                  = [CallOnChange (images p ++ records);
                     CallToast (successToast (length fileArray))]).
  { apply emittedBy_calls. by rewrite Hrun. }
  assert (Hadd : ImageList.add env p s fileArray = images p ++ records).
  { unfold ImageList.add, snapshotAfter. by rewrite Hemit. }
  rewrite Hemit, Hadd. split; [|split; [done|]].
  - rewrite length_app, <- (Forall2_length _ _ _ Hrec). lia.
  - intros s' more Hmore.
    apply (emittedBy_logged _ s' (Returned tt)).
    rewrite handleFiles_over; [done|done|]. simpl.
    rewrite length_app, <- (Forall2_length _ _ _ Hrec).
    destruct more; [done|]. simpl. lia.
Qed.

Lemma ceiling_is_inclusive_witness :
  replicate 9 photoA <> []
  /\ Z.of_nat (length (images (defaultProps [itemA]))
               + length (replicate 9 photoA))
     = maxImages (defaultProps [itemA])
  /\ Forall (fun f => accepts (defaultProps [itemA]) f = true)
       (replicate 9 photoA)
  /\ Forall (resolves sampleBrowser (defaultProps [itemA]))
       (replicate 9 photoA)
  /\ Z.of_nat (length (ImageList.add sampleBrowser (defaultProps [itemA])
                         mounted (replicate 9 photoA))) = 10.
Proof.
  assert (Hacc : Forall (fun f => accepts (defaultProps [itemA]) f = true)
                   (replicate 9 photoA)).
  { apply Forall_replicate. reflexivity. }
  assert (Hall : Forall (resolves sampleBrowser (defaultProps [itemA]))
                   (replicate 9 photoA)).
  { apply Forall_replicate. by eexists. }
  split; [discriminate|]. split; [reflexivity|].
  split; [exact Hacc|]. split; [exact Hall|].
  apply (proj1 (ceiling_is_inclusive sampleBrowser (defaultProps [itemA])
                  mounted (replicate 9 photoA) ltac:(discriminate) eq_refl
                  Hacc Hall)).
Defined.

(** X3. In a component that has rendered, validation splits every batch
    in two without losing or reordering a file: the accepted files are the
    files of the batch that pass, in the order of the selection; there is
    one message per other file, in the same order; and validation changes
    nothing in the instance. *)
Theorem validation_partitions_batch p labels s fileArray :
  render_labels p s = (Returned labels, s) ->
  exists errors validFiles,
    validateAll p fileArray [] [] s = (Returned (errors, validFiles), s)
    /\ validFiles = List.filter (accepts p) fileArray
    /\ errors = omap (verdict p labels) fileArray
    /\ (length errors + length validFiles = length fileArray)%nat
    /\ length errors
       = length (List.filter (fun f => negb (accepts p f)) fileArray).
Proof.
  intros Hr. eexists _, _.
  split; [apply (validateAll_rendered p labels s Hr)|]. simpl.
  split; [done|]. split; [done|].
  assert (Hlen : length (omap (verdict p labels) fileArray)
                 = length (List.filter (fun f => negb (accepts p f)) fileArray)).
  { induction fileArray as [|f fs IH]; [done|]. cbn.
    pose proof (verdict_accepts p labels f) as Hv.
    destruct (verdict p labels f) as [e|] eqn:He.
    - destruct (accepts p f); [by apply proj2 in Hv; discriminate Hv|].
      cbn. f_equal. exact IH.
    - rewrite (proj1 Hv eq_refl). cbn. exact IH. }
  split; [|done]. rewrite Hlen. clear Hlen.
  induction fileArray as [|f fs IH]; [done|]. cbn.
  destruct (accepts p f); cbn; [rewrite Nat.add_succ_r|]; f_equal; exact IH.
Qed.

Lemma validation_partitions_batch_witness :
  render_labels (defaultProps []) mounted
  = (Returned ("5", "JPEG, JPG, PNG, WEBP, GIF"), mounted)
  /\ exists errors validFiles,
       validateAll (defaultProps []) [photoA; notes; photoB] [] [] mounted
       = (Returned (errors, validFiles), mounted)
       /\ validFiles = List.filter (accepts (defaultProps []))
                         [photoA; notes; photoB]
       /\ errors = omap (verdict (defaultProps [])
                           ("5", "JPEG, JPG, PNG, WEBP, GIF"))
                     [photoA; notes; photoB]
       /\ (length errors + length validFiles
           = length [photoA; notes; photoB])%nat
       /\ length errors
          = length (List.filter (fun f => negb (accepts (defaultProps []) f))
                      [photoA; notes; photoB]).
Proof.
  split; [reflexivity|].
  exact (validation_partitions_batch (defaultProps [])
           ("5", "JPEG, JPG, PNG, WEBP, GIF") mounted [photoA; notes; photoB]
           eq_refl).
Defined.

(** ** The file input and the [uploading] flag *)



(** ** Drag gestures *)

Lemma bind_ret_tt (m : M unit) s : (m ;; ret tt) s = m s.
Proof.
  unfold bind, ret. destruct (m s) as [[[]| | |] s']; done.
Qed.

Lemma handleDragOver_hovering p i o j s :
  enableReorder p = true ->
  handleDragOver p j (hovering (Some i) o s)
  = (Returned tt, hovering (Some i) (Some j) s).
Proof. intros He. unfold handleDragOver, bind, getState. by rewrite He. Qed.

(** While a card is dragged, the card hovered last is the one on record. *)
Lemma hover_run p i j js : forall o rest s,
  enableReorder p = true ->
  dragEvents p ((DragOver <$> js) ++ DragOver j :: rest)
    (hovering (Some i) o s)
  = dragEvents p rest (hovering (Some i) (Some j) s).
Proof.
  induction js as [|j0 js IH]; intros o rest s He.
  - cbn [fmap list_fmap app dragEvents dragEvent]. unfold bind at 1.
    by rewrite handleDragOver_hovering.
  - cbn [fmap list_fmap app dragEvents dragEvent]. unfold bind at 1.
    rewrite handleDragOver_hovering by done. by apply IH.
Qed.

(** With reordering disabled a drag event only clears the indices. *)
Lemma dragEvent_disabled p e s :
  enableReorder p = false ->
  dragEvent p e s = (Returned tt, s)
  \/ dragEvent p e s = (Returned tt, dragCleared s).
Proof.
  intros He. destruct e as [i|j|]; simpl.
  - left. unfold handleDragStart. by rewrite He.
  - left. unfold handleDragOver, bind, getState. by rewrite He.
  - right. apply handleDragEnd_noop. by left.
Qed.

Lemma dragEvents_disabled p es : forall s,
  enableReorder p = false ->
  exists s', dragEvents p es s = (Returned tt, s') /\ calls s' = calls s.
Proof.
  induction es as [|e es IH]; intros s He.
  - by exists s.
  - cbn [dragEvents]. unfold bind at 1.
    destruct (dragEvent_disabled p e s He) as [-> | ->].
    + apply IH, He.
    + destruct (IH (dragCleared s) He) as (s' & Hrun & Hcalls).
      by exists s'.
Qed.

(** X5. With [enableReorder] off no sequence of drag events on the
    cards changes the list: every handler returns, neither [onChange] nor
    [toast] is called, and the owner keeps the list. *)
Theorem disabled_reorder_never_changes_list p es s :
  enableReorder p = false ->
  (dragEvents p es s).1 = Returned tt
  /\ emittedBy (dragEvents p es) s = []
  /\ snapshotAfter p (dragEvents p es) s = images p.
Proof.
  intros He. destruct (dragEvents_disabled p es s He) as (s' & Hrun & Hcalls).
  assert (Hemit : emittedBy (dragEvents p es) s = []).
  { apply emittedBy_calls. rewrite Hrun. simpl. by rewrite app_nil_r. }
  unfold snapshotAfter. rewrite Hemit, Hrun. done.
Qed.

Lemma disabled_reorder_never_changes_list_witness :
  enableReorder (mkProps [itemA; itemB; itemC] 10 DEFAULT_ALLOWED_TYPES
                   DEFAULT_MAX_FILE_SIZE false None None) = false
  /\ snapshotAfter
       (mkProps [itemA; itemB; itemC] 10 DEFAULT_ALLOWED_TYPES
          DEFAULT_MAX_FILE_SIZE false None None)
       (dragEvents
          (mkProps [itemA; itemB; itemC] 10 DEFAULT_ALLOWED_TYPES
             DEFAULT_MAX_FILE_SIZE false None None)
          [DragStart 0; DragOver 1; DragOver 2; DragEnd]) draggingOverItself
     = [itemA; itemB; itemC].
Proof.
  split; [reflexivity|].
  apply (proj2 (proj2 (disabled_reorder_never_changes_list
                         (mkProps [itemA; itemB; itemC] 10
                            DEFAULT_ALLOWED_TYPES DEFAULT_MAX_FILE_SIZE false
                            None None)
                         [DragStart 0; DragOver 1; DragOver 2; DragEnd]
                         draggingOverItself eq_refl))).
Defined.

Lemma dragEvents_without_start p es : forall s,
  draggedIndex s = None ->
  forallb (fun e => negb (isDragStart e)) es = true ->
  exists s', dragEvents p es s = (Returned tt, s')
             /\ calls s' = calls s /\ draggedIndex s' = None.
Proof.
  induction es as [|e es IH]; intros s Hd Hes.
  - by exists s.
  - cbn [forallb] in Hes. apply andb_true_iff in Hes as [He Hes].
    cbn [dragEvents]. unfold bind at 1.
    destruct e as [i|j|]; [done| |].
    + assert (Hover : dragEvent p (DragOver j) s = (Returned tt, s)).
      { simpl. unfold handleDragOver, bind, getState. rewrite Hd. simpl.
        by rewrite orb_true_r. }
      rewrite Hover. by apply IH.
    + assert (Hend : dragEvent p DragEnd s = (Returned tt, dragCleared s)).
      { simpl. apply handleDragEnd_noop. right. by left. }
      rewrite Hend. destruct (IH (dragCleared s) eq_refl Hes)
        as (s' & Hrun & Hcalls & Hd').
      by exists s'.
Qed.

(** X6. Unless a drag has started, hovering and dropping change
    nothing: from an instance with no dragged index on record, a sequence
    of drag-over and drag-end events makes no call (whatever hovered index
    is still on record), and no dragged index is on record afterwards. *)
Theorem no_reorder_without_drag_start p es s :
  draggedIndex s = None ->
  forallb (fun e => negb (isDragStart e)) es = true ->
  (dragEvents p es s).1 = Returned tt
  /\ emittedBy (dragEvents p es) s = []
  /\ draggedIndex (dragEvents p es s).2 = None.
Proof.
  intros Hd Hes.
  destruct (dragEvents_without_start p es s Hd Hes)
    as (s' & Hrun & Hcalls & Hd').
  split; [by rewrite Hrun|]. split; [|by rewrite Hrun].
  apply emittedBy_calls. rewrite Hrun. simpl. by rewrite app_nil_r.
Qed.

Lemma no_reorder_without_drag_start_witness :
  draggedIndex (hovering None (Some 2%nat) mounted) = None
  /\ forallb (fun e => negb (isDragStart e)) [DragOver 1; DragEnd; DragEnd]
     = true
  /\ emittedBy (dragEvents (defaultProps [itemA; itemB; itemC])
                  [DragOver 1; DragEnd; DragEnd])
       (hovering None (Some 2%nat) mounted) = [].
Proof.
  split; [reflexivity|]. split; [reflexivity|].
  apply (proj1 (proj2 (no_reorder_without_drag_start
                         (defaultProps [itemA; itemB; itemC])
                         [DragOver 1; DragEnd; DragEnd]
                         (hovering None (Some 2%nat) mounted)
                         eq_refl eq_refl))).
Defined.

(** X7. Of the cards a drag passes over, the last one counts: a drag
    that starts on card i, passes over any cards and then over card j, and
    ends, does what the drag from i to j does (the same calls, the same
    instance), so the owner holds [reorder(L, i, j)]. *)
Theorem last_hovered_card_wins p s i js j :
  dragEvents p (DragStart i :: (DragOver <$> js) ++ [DragOver j; DragEnd]) s
  = ImageList.drag p i j s
  /\ snapshotAfter p
       (dragEvents p
          (DragStart i :: (DragOver <$> js) ++ [DragOver j; DragEnd])) s
     = ImageList.reorder p s i j.
Proof.
  assert (Hrun :
    dragEvents p (DragStart i :: (DragOver <$> js) ++ [DragOver j; DragEnd]) s
    = ImageList.drag p i j s).
  { destruct (enableReorder p) eqn:He.
    - assert (Hstart : forall t,
                handleDragStart p i t
                = (Returned tt, hovering (Some i) (dragOverIndex t) t)).
      { intros t. unfold handleDragStart. by rewrite He. }
      transitivity (handleDragEnd p (hovering (Some i) (Some j) s)).
      + cbn [dragEvents dragEvent]. unfold bind at 1. rewrite Hstart.
        rewrite hover_run by done.
        cbn [dragEvents dragEvent]. apply bind_ret_tt.
      + unfold ImageList.drag. unfold bind at 1. rewrite Hstart.
        unfold bind at 1. by rewrite handleDragOver_hovering.
    - destruct (dragEvents_disabled p
                  (DragStart i :: (DragOver <$> js) ++ [DragOver j; DragEnd])
                  s He) as (s' & Hrun & _).
      assert (Hlast : forall es t,
                dragEvents p (es ++ [DragEnd]) t
                = (Returned tt, dragCleared t)).
      { induction es as [|e es IH]; intros t.
        - cbn [app dragEvents dragEvent]. rewrite bind_ret_tt.
          apply handleDragEnd_noop. by left.
        - cbn [app dragEvents]. unfold bind at 1.
          destruct (dragEvent_disabled p e t He) as [-> | ->]; rewrite IH;
            [done|]. by destruct t. }
      replace (DragStart i :: (DragOver <$> js) ++ [DragOver j; DragEnd])
        with ((DragStart i :: (DragOver <$> js) ++ [DragOver j]) ++ [DragEnd])
        by (simpl; by rewrite <- app_assoc).
      rewrite Hlast.
      unfold ImageList.drag, handleDragStart, handleDragOver, bind, getState.
      rewrite He. simpl. symmetry. apply handleDragEnd_noop. by left. }
  split; [done|].
  unfold ImageList.reorder, snapshotAfter, emittedBy. by rewrite Hrun.
Qed.

(** ** How the list operations compose *)

(** X8. Dragging a card onto the first card gives the list that
    promoting it gives, and dragging the new cover back to position i
    undoes a promotion of the card at i. *)
Theorem drag_to_front_is_promotion p s s1 s2 i :
  enableReorder p = true ->
  ImageList.reorder p s i 0 = ImageList.promoteToCover p s1 i
  /\ (is_Some (images p !! i) ->
      ImageList.reorder (withImages p (ImageList.promoteToCover p s1 i)) s2 0 i
      = images p).
Proof.
  intros He. rewrite reorder_eq, promoteToCover_eq, He.
  destruct i as [|n].
  - split.
    + destruct (images p !! 0%nat); [|done].
      by destruct (decide (0%nat = 0%nat)).
    + intros [x Hx]. rewrite reorder_eq. simpl. rewrite He.
      change (images p !! 0%nat) with (images p !! 0%nat) in Hx.
      destruct (images p) as [|y l]; [done|]. simpl.
      by destruct (decide (0%nat = 0%nat)).
  - destruct (images p !! S n) as [x|] eqn:Hx.
    + split.
      * destruct (decide (S n = 0%nat)); [done|].
        unfold moved. by rewrite drop_0.
      * intros _. rewrite reorder_eq. simpl. rewrite He.
        destruct (decide (0%nat = S n)); [done|].
        unfold moved. cbn [delete list_delete].
        by apply insert_at_delete.
    + split; [done|]. by intros [x Hx'].
Qed.

Lemma drag_to_front_is_promotion_witness :
  enableReorder (defaultProps [itemA; itemB; itemC; itemD]) = true
  /\ ImageList.reorder (defaultProps [itemA; itemB; itemC; itemD]) mounted 2 0
     = ImageList.promoteToCover (defaultProps [itemA; itemB; itemC; itemD])
         mounted 2
  /\ ImageList.reorder (defaultProps [itemC; itemA; itemB; itemD]) mounted 0 2
     = [itemA; itemB; itemC; itemD].
Proof.
  split; [reflexivity|].
  destruct (drag_to_front_is_promotion
              (defaultProps [itemA; itemB; itemC; itemD]) mounted mounted
              mounted 2 eq_refl) as [Hfront Hback].
  split; [exact Hfront|]. exact (Hback (mk_is_Some _ _ eq_refl)).
Defined.

(** X9. Removing the cover right after a promotion leaves the list
    that removing the promoted card would have left. *)
Theorem remove_promoted_cover p s s1 s2 i :
  is_Some (images p !! i) ->
  ImageList.remove (withImages p (ImageList.promoteToCover p s i)) s1 0
  = ImageList.remove p s2 i.
Proof.
  intros [x Hx]. rewrite !remove_delete, promoteToCover_eq.
  destruct i as [|n]; [done|]. by rewrite Hx.
Qed.

Lemma remove_promoted_cover_witness :
  is_Some ([itemA; itemB; itemC] !! 2%nat)
  /\ ImageList.remove
       (withImages (defaultProps [itemA; itemB; itemC])
          (ImageList.promoteToCover (defaultProps [itemA; itemB; itemC])
             mounted 2)) mounted 0
     = [itemA; itemB].
Proof.
  split; [by eexists|].
  rewrite (remove_promoted_cover (defaultProps [itemA; itemB; itemC]) mounted
             mounted mounted 2 (mk_is_Some _ _ eq_refl)).
  reflexivity.
Defined.

(** X10. Who the cover is after each operation: an intake into a list
    that has images keeps the cover; removing the cover makes the second
    image the cover, removing another image keeps it; promoting a card
    makes it the cover; a crop of a card never changes which record (by
    [id]) is the cover; a drag between two cards other than the first keeps
    it. *)
Theorem cover_after_operations env p s :
  (forall files, images p <> [] ->
     ImageList.cover (ImageList.add env p s files) = ImageList.cover (images p))
  /\ ImageList.cover (ImageList.remove p s 0) = images p !! 1%nat
  /\ (forall i, (0 < i)%nat ->
        ImageList.cover (ImageList.remove p s i) = ImageList.cover (images p))
  /\ (forall i x, images p !! i = Some x ->
        ImageList.cover (ImageList.promoteToCover p s i) = Some x)
  /\ (forall i croppedImage, is_Some (images p !! i) ->
        id <$> ImageList.cover (ImageList.updateOne env p s i croppedImage)
        = id <$> ImageList.cover (images p))
  /\ (forall i j, (0 < i)%nat -> (0 < j)%nat ->
        is_Some (images p !! i) -> is_Some (images p !! j) ->
        ImageList.cover (ImageList.reorder p s i j)
        = ImageList.cover (images p)).
Proof.
  unfold ImageList.cover. split; [|split; [|split; [|split; [|split]]]].
  - intros files Hne.
    destruct (add_cases env p s files) as [->|(records & -> & _)]; [done|].
    apply lookup_app_l. destruct (images p); [done|simpl; lia].
  - rewrite remove_delete. by apply list_lookup_delete_ge.
  - intros i Hi. rewrite remove_delete. by apply list_lookup_delete_lt.
  - intros i x Hx. rewrite promoteToCover_eq.
    destruct i as [|n]; [done|]. by rewrite Hx.
  - intros i croppedImage _.
    destruct (updateOne_eq env p s i croppedImage)
      as [->|(image & newUrl & Hx & _ & ->)]; [done|].
    destruct i as [|n].
    + rewrite list_lookup_insert_eq by (by eapply lookup_lt_Some).
      by rewrite Hx.
    + by rewrite list_lookup_insert_ne.
  - intros i j Hi Hj [x Hx] _. rewrite reorder_eq, Hx.
    destruct (enableReorder p); [|done].
    destruct (decide (i = j)); [done|].
    unfold moved. pose proof (lookup_lt_Some _ _ _ Hx) as Hlen.
    assert (Hdel : (0 < length (delete i (images p)))%nat).
    { rewrite length_delete by eauto. lia. }
    rewrite lookup_app_l by (rewrite length_take; lia).
    rewrite lookup_take_lt by lia. by apply list_lookup_delete_lt.
Qed.

Lemma cover_after_operations_witness :
  images (defaultProps [itemA; itemB; itemC]) <> []
  /\ (0 < 2)%nat /\ (0 < 1)%nat
  /\ is_Some (images (defaultProps [itemA; itemB; itemC]) !! 0%nat)
  /\ is_Some (images (defaultProps [itemA; itemB; itemC]) !! 1%nat)
  /\ is_Some (images (defaultProps [itemA; itemB; itemC]) !! 2%nat)
  /\ ImageList.cover
       (ImageList.add sampleBrowser (defaultProps [itemA; itemB; itemC])
          mounted [photoA])
     = Some itemA
  /\ ImageList.cover
       (ImageList.remove (defaultProps [itemA; itemB; itemC]) mounted 2)
     = Some itemA
  /\ ImageList.cover
       (ImageList.promoteToCover (defaultProps [itemA; itemB; itemC])
          mounted 2)
     = Some itemC
  /\ id <$> ImageList.cover
              (ImageList.updateOne sampleBrowser
                 (defaultProps [itemA; itemB; itemC]) mounted 0
                 (inl (BlobOf "cropped")))
     = Some "img_1_a"
  /\ ImageList.cover
       (ImageList.reorder (defaultProps [itemA; itemB; itemC]) mounted 2 1)
     = Some itemA.
Proof.
  assert (H0 : is_Some (images (defaultProps [itemA; itemB; itemC]) !! 0%nat))
    by (by eexists).
  assert (H1 : is_Some (images (defaultProps [itemA; itemB; itemC]) !! 1%nat))
    by (by eexists).
  assert (H2 : is_Some (images (defaultProps [itemA; itemB; itemC]) !! 2%nat))
    by (by eexists).
  destruct (cover_after_operations sampleBrowser
              (defaultProps [itemA; itemB; itemC]) mounted)
    as (Hadd & _ & Hremove & Hpromote & Hupdate & Hreorder).
  split; [discriminate|]. split; [lia|]. split; [lia|].
  split; [exact H0|]. split; [exact H1|]. split; [exact H2|].
  split; [exact (Hadd [photoA] ltac:(discriminate))|].
  split; [exact (Hremove 2%nat ltac:(lia))|].
  split; [exact (Hpromote 2%nat itemC eq_refl)|].
  split; [exact (Hupdate 0%nat (inl (BlobOf "cropped")) H0)|].
  exact (Hreorder 2%nat 1%nat ltac:(lia) ltac:(lia) H2 H1).
Defined.

(** ** A crop that does not complete *)

Lemma handleCropComplete_calls env p index croppedImage s :
  calls (handleCropComplete env p index croppedImage s).2 = calls s
  \/ exists newImages,
       calls (handleCropComplete env p index croppedImage s).2
       = calls s ++ [CallOnChange newImages].
Proof.
  unfold handleCropComplete, bind.
  pose proof (cropUrl_state env p (images p !! index) croppedImage s) as Hs.
  destruct (cropUrl env p (images p !! index) croppedImage s) as [o s'].
  simpl in Hs. subst s'.
  destruct o as [newUrl| | |]; [|by left..].
  destruct (images p !! index) as [image|]; [|by left].
  right. by eexists.
Qed.

(** X11. [handleCropComplete] reports nothing when a crop does not
    complete: when the caller's [onCropComplete] rejects, the handler
    throws what it rejected with (to nobody: its promise is not awaited)
    and makes no call; when there is no [onCropComplete] and the blob
    cannot be read, the handler stays pending and makes no call.  Whatever
    the crop, the handler never calls [toast]. *)
Theorem crop_failure_is_silent env p s index image blob :
  images p !! index = Some image ->
  (forall upload e,
     onCropComplete p = Some upload -> upload (id image) blob = Rejected e ->
     handleCropComplete env p index (inl blob) s = (Threw e, s))
  /\ (onCropComplete p = None -> readBlobAsDataURL env blob = None ->
      handleCropComplete env p index (inl blob) s = (Pending, s))
  /\ (forall croppedImage,
        toastCalls (emittedBy (handleCropComplete env p index croppedImage) s)
        = []).
Proof.
  intros Hx. split; [|split].
  - intros upload e Hup Hrej. unfold handleCropComplete, bind, cropUrl.
    by rewrite Hx, Hup, Hrej.
  - intros Hup Hread. unfold handleCropComplete, bind, cropUrl.
    by rewrite Hx, Hup, Hread.
  - intros croppedImage.
    destruct (handleCropComplete_calls env p index croppedImage s)
      as [Hc|[newImages Hc]].
    + rewrite (emittedBy_calls _ s []); [done|]. by rewrite app_nil_r.
    + by rewrite (emittedBy_calls _ s [CallOnChange newImages]).
Qed.

Lemma crop_failure_is_silent_witness :
  [itemA; itemB] !! 1%nat = Some itemB
  /\ handleCropComplete sampleBrowser
       (mkProps [itemA; itemB] 10 DEFAULT_ALLOWED_TYPES DEFAULT_MAX_FILE_SIZE
          true None (Some (fun _ _ => Rejected (ErrorObject "crop upload failed"))))
       1 (inl (BlobOf "cropped")) mounted
     = (Threw (ErrorObject "crop upload failed"), mounted).
Proof.
  split; [reflexivity|].
  apply (proj1 (crop_failure_is_silent sampleBrowser
                  (mkProps [itemA; itemB] 10 DEFAULT_ALLOWED_TYPES
                     DEFAULT_MAX_FILE_SIZE true None
                     (Some (fun _ _ => Rejected (ErrorObject "crop upload failed"))))
                  mounted 1 itemB (BlobOf "cropped") eq_refl)
           (fun _ _ => Rejected (ErrorObject "crop upload failed"))
           (ErrorObject "crop upload failed") eq_refl eq_refl).
Defined.

(** ** When two identifiers coincide *)

Lemma pretty_N_go_underscore x : forall s,
  occurs "_" (pretty_N_go x s) = occurs "_" s.
Proof.
  induction (N.lt_wf_0 x) as [x _ IH]; intros s.
  destruct (decide (x = 0)%N) as [->|Hx]; [by rewrite pretty_N_go_0|].
  rewrite pretty_N_go_step by lia.
  rewrite IH by (apply N.div_lt; lia).
  simpl. unfold pretty_N_char. by repeat case_match.
Qed.

Lemma pretty_Z_underscore (z : Z) : occurs "_" (pretty z) = false.
Proof.
  assert (Hpos : forall q : positive, occurs "_" (pretty q) = false).
  { intros q. unfold pretty, pretty_positive, pretty, pretty_N.
    case_decide; [done|]. by rewrite pretty_N_go_underscore. }
  destruct z as [|q|q]; [done|apply Hpos|].
  unfold pretty, pretty_Z. simpl. apply Hpos.
Qed.

(** Two strings cut at the first occurrence of a character. *)
Lemma append_cut c a : forall a' b b',
  occurs c a = false -> occurs c a' = false ->
  a +:+ String c b = a' +:+ String c b' -> a = a' /\ b = b'.
Proof.
  induction a as [|x a IH]; intros [|x' a'] b b' Ha Ha' Heq; simpl in *.
  - by injection Heq as ->.
  - injection Heq as <- _. by rewrite Ascii.eqb_refl in Ha'.
  - injection Heq as -> _. by rewrite Ascii.eqb_refl in Ha.
  - injection Heq as -> Heq.
    apply orb_false_iff in Ha as [_ Ha]. apply orb_false_iff in Ha' as [_ Ha'].
    destruct (IH a' b b' Ha Ha' Heq) as [-> ->]. done.
Qed.

Lemma idAt_eq_iff env k1 k2 :
  idAt env k1 = idAt env k2
  <-> Date_now env k1 = Date_now env k2
      /\ Js.substr 2 9 (Math_random_toString36 env k1)
         = Js.substr 2 9 (Math_random_toString36 env k2).
Proof.
  split.
  - unfold idAt. intros Heq. simpl in Heq. injection Heq as Heq.
    apply append_cut in Heq as [Hnow Hrandom];
      [|apply pretty_Z_underscore..].
    split; [|done]. by apply (inj pretty).
  - intros [Hnow Hrandom]. unfold idAt. by rewrite Hnow, Hrandom.
Qed.

(** X12. Two identifiers that [generateId] makes are the same exactly
    when the clock read the same millisecond for both and the two random
    strings agree from their third character to their eleventh: the
    decimal timestamp cannot run into the random part. *)
Theorem identifiers_coincide_iff env s1 s2 :
  (generateId env s1).1 = (generateId env s2).1
  <-> Date_now env (generated s1) = Date_now env (generated s2)
      /\ Js.substr 2 9 (Math_random_toString36 env (generated s1))
         = Js.substr 2 9 (Math_random_toString36 env (generated s2)).
Proof.
  rewrite !generateId_run. cbn [fst]. split.
  - intros H. apply idAt_eq_iff.
    exact (f_equal (fun o => match o with
                             | Returned i => i
                             | _ => EmptyString
                             end) H).
  - intros H. f_equal. by apply idAt_eq_iff.
Qed.

(** X13. When the clock never reads the same millisecond twice, the
    records of an intake get identifiers that differ from one another
    whatever the random source gives; if moreover none of them is already
    in the list, the list keeps its identifiers pairwise distinct. *)
Theorem ticking_clock_gives_distinct_ids env p s files :
  (forall k1 k2, Date_now env k1 = Date_now env k2 -> k1 = k2) ->
  NoDup (id <$> images p) ->
  (forall k, (generated s <= k)%nat -> idAt env k ∉ id <$> images p) ->
  NoDup (id <$> ImageList.add env p s files).
Proof.
  intros Hclock Hnd Hfresh.
  destruct (add_cases env p s files) as [->|(records & -> & _ & Hid)];
    [done|].
  rewrite fmap_app, (ids_of_records (idAt env) records (generated s) Hid).
  apply NoDup_app. split; [done|]. split.
  - intros x Hx [k [-> Hk]]%list_elem_of_fmap.
    apply elem_of_seq in Hk. by apply (Hfresh k); [lia|].
  - apply NoDup_fmap_2_strong; [|apply NoDup_seq].
    intros k1 k2 _ _ Heq. apply Hclock. by apply idAt_eq_iff in Heq as [? _].
Qed.

Lemma ticking_clock_gives_distinct_ids_witness :
  (forall k1 k2,
     Date_now sampleBrowser k1 = Date_now sampleBrowser k2 -> k1 = k2)
  /\ NoDup (id <$> images (defaultProps []))
  /\ (forall k, (generated mounted <= k)%nat ->
        idAt sampleBrowser k ∉ id <$> images (defaultProps []))
  /\ NoDup (id <$> ImageList.add sampleBrowser (defaultProps []) mounted
                     [photoA; photoB; photoA]).
Proof.
  assert (Hclock : forall k1 k2,
            Date_now sampleBrowser k1 = Date_now sampleBrowser k2 -> k1 = k2).
  { intros k1 k2 H. simpl in H. lia. }
  assert (Hfresh : forall k, (generated mounted <= k)%nat ->
            idAt sampleBrowser k ∉ id <$> images (defaultProps [])).
  { intros k _. simpl. apply not_elem_of_nil. }
  split; [exact Hclock|]. split; [constructor|]. split; [exact Hfresh|].
  apply (ticking_clock_gives_distinct_ids sampleBrowser (defaultProps [])
           mounted [photoA; photoB; photoA] Hclock); [constructor|exact Hfresh].
Defined.

(** ** The crop dialog *)

(** [createCroppedImage] reads nothing from the state of the dialog and
    leaves it alone; it returns or throws. *)
Lemma createCroppedImage_pure env props url area :
  (exists c, forall s,
     CropDialog.createCroppedImage env props url area s = (Returned c, s))
  \/ (exists e, forall s,
        CropDialog.createCroppedImage env props url area s = (Threw e, s)).
Proof.
  unfold CropDialog.createCroppedImage, CropDialog.createImage, bindS.
  destruct (imageLoads env url _); [|right; by eexists].
  unfold retS.
  destruct (getContext2d env); simpl; [|right; by eexists].
  destruct (CropDialog.returnDataUrl props).
  - destruct (toDataURL env _ _ _) as [dataUrl|e];
      [left|right]; by eexists.
  - destruct (toBlob env _ _ _) as [[blob|]|e];
      [left|right|right]; by eexists.
Qed.

Lemma createCroppedImage_transfer env props url area s t o :
  CropDialog.createCroppedImage env props url area s = (o, s) ->
  CropDialog.createCroppedImage env props url area t = (o, t).
Proof.
  intros H.
  destruct (createCroppedImage_pure env props url area) as [[c Hc]|[e He]].
  - rewrite Hc in *. by injection H as <-.
  - rewrite He in *. by injection H as <-.
Qed.

(** Lines 142-176 with a crop area on record. *)
Lemma handleSave_run env props s area :
  CropDialog.croppedAreaPixels s = Some area ->
  CropDialog.handleSave env props s
  = match CropDialog.createCroppedImage env props
            (CropDialog.imageUrl props) area s with
    | (Returned croppedImage, _) =>
        (Returned tt,
         CropDialog.mkState false
           (Point.mk (QArith_base.Qmake 0 1) (QArith_base.Qmake 0 1))
           (QArith_base.Qmake 1 1) (Some area) false
           (CropDialog.calls s
            ++ [CropDialog.CallOnCropComplete croppedImage;
                CropDialog.CallToast cropSuccessToast]))
    | (Threw e, _) =>
        (Returned tt,
         CropDialog.mkState (CropDialog.open s) (CropDialog.crop s)
           (CropDialog.zoom s) (Some area) false
           (CropDialog.calls s ++ [CropDialog.CallToast (cropErrorToast e)]))
    | (Pending, _) => (Pending, s)
    | (OutOfModel, _) => (OutOfModel, s)
    end.
Proof.
  intros Harea. unfold CropDialog.handleSave. unfold bindS at 1, getS.
  rewrite Harea. unfold bindS at 1. unfold CropDialog.setSaving at 1.
  set (s1 := CropDialog.mkState _ _ _ _ true _).
  destruct (createCroppedImage_pure env props (CropDialog.imageUrl props) area)
    as [[c Hc]|[e He]].
  - unfold finallyS, catchS. unfold bindS at 1. rewrite !Hc.
    unfold s1. simpl. rewrite Harea. by rewrite <- app_assoc.
  - unfold finallyS, catchS. unfold bindS at 1. rewrite !He.
    unfold s1. simpl. by rewrite Harea.
Qed.

(** X14. Unless a crop is produced, saving changes nothing but the
    notifications: when no crop area is on record, or when loading,
    drawing or encoding fails, [handleSave] returns with the dialog as open
    as it was, the pan, the zoom and the area kept, [onCropComplete] not
    called, and exactly one toast, a destructive one; [saving] is false
    again when a crop was attempted. *)
Theorem unproduced_crop_changes_nothing env props s :
  (forall area croppedImage,
     CropDialog.croppedAreaPixels s = Some area ->
     CropDialog.createCroppedImage env props (CropDialog.imageUrl props) area s
     <> (Returned croppedImage, s)) ->
  exists t,
    CropDialog.handleSave env props s
    = (Returned tt,
       CropDialog.mkState (CropDialog.open s) (CropDialog.crop s)
         (CropDialog.zoom s) (CropDialog.croppedAreaPixels s)
         (match CropDialog.croppedAreaPixels s with
          | Some _ => false
          | None => CropDialog.saving s
          end)
         (CropDialog.calls s ++ [CropDialog.CallToast t]))
    /\ variant t = destructive
    /\ (CropDialog.croppedAreaPixels s = None -> t = noCropAreaToast)
    /\ (forall area e,
          CropDialog.croppedAreaPixels s = Some area ->
          CropDialog.createCroppedImage env props (CropDialog.imageUrl props)
            area s = (Threw e, s) ->
          t = cropErrorToast e).
Proof.
  intros Hnone.
  destruct (CropDialog.croppedAreaPixels s) as [area|] eqn:Harea.
  - rewrite (handleSave_run env props s area Harea).
    destruct (createCroppedImage_pure env props (CropDialog.imageUrl props)
                area) as [[c Hc]|[e He]].
    + by destruct (Hnone area c eq_refl).
    + rewrite He. exists (cropErrorToast e).
      split; [done|]. split; [done|]. split; [done|].
      intros area' e' [= <-] He'. rewrite He in He'. by injection He' as <-.
  - exists noCropAreaToast. split; [|done].
    unfold CropDialog.handleSave, bindS, getS. rewrite Harea.
    unfold CropDialog.toast, CropDialog.emit. by rewrite Harea.
Qed.

Lemma unproduced_crop_changes_nothing_witness :
  (forall area croppedImage,
     CropDialog.croppedAreaPixels cropping = Some area ->
     CropDialog.createCroppedImage emptyCanvasBrowser sampleDialogProps
       (CropDialog.imageUrl sampleDialogProps) area cropping
     <> (Returned croppedImage, cropping))
  /\ CropDialog.handleSave emptyCanvasBrowser sampleDialogProps cropping
     = (Returned tt,
        CropDialog.mkState true (CropDialog.crop cropping)
          (CropDialog.zoom cropping) (Some sampleArea) false
          [CropDialog.CallToast
             (mkToast "Crop Error" "Canvas is empty" (Some "destructive"))]).
Proof.
  assert (Hnone : forall area croppedImage,
            CropDialog.croppedAreaPixels cropping = Some area ->
            CropDialog.createCroppedImage emptyCanvasBrowser sampleDialogProps
              (CropDialog.imageUrl sampleDialogProps) area cropping
            <> (Returned croppedImage, cropping)).
  { intros area croppedImage _ H. vm_compute in H. discriminate H. }
  split; [exact Hnone|].
  destruct (unproduced_crop_changes_nothing emptyCanvasBrowser
              sampleDialogProps cropping Hnone) as (t & Hrun & _ & _ & Ht).
  rewrite Hrun.
  rewrite (Ht sampleArea (ErrorObject "Canvas is empty") eq_refl eq_refl).
  reflexivity.
Defined.

(** X15. What the user reads when a crop fails: "Failed to crop image"
    when the image does not load (the promise rejects with the event),
    "No 2d context" when the canvas gives no context, "Canvas is empty"
    when [toBlob] hands over [null], and the message of whatever the
    encoder threw otherwise. *)
Theorem crop_error_messages env props s area :
  CropDialog.croppedAreaPixels s = Some area ->
  let url := CropDialog.imageUrl props in
  let attribute :=
    if CropDialog.externalUrl env url then Some "anonymous" else None in
  let canvas :=
    Canvas.mk (canvasSize 300 (Area.width area))
      (canvasSize 150 (Area.height area))
      [mkDrawImage (mkImage url attribute)
         (Area.x area) (Area.y area) (Area.width area) (Area.height area)
         0 0 (Area.width area) (Area.height area)] in
  let report (message : string) :=
    [CropDialog.CallToast (mkToast "Crop Error" message destructive)] in
  let emitted :=
    drop (length (CropDialog.calls s))
      (CropDialog.calls (CropDialog.handleSave env props s).2) in
  (imageLoads env url attribute = false ->
     emitted = report "Failed to crop image")
  /\ (imageLoads env url attribute = true -> getContext2d env = false ->
      emitted = report "No 2d context")
  /\ (imageLoads env url attribute = true -> getContext2d env = true ->
      CropDialog.returnDataUrl props = false ->
      toBlob env canvas "image/jpeg" (QArith_base.Qmake 95 100)
      = Fulfilled None ->
      emitted = report "Canvas is empty")
  /\ (forall message,
        imageLoads env url attribute = true -> getContext2d env = true ->
        (if CropDialog.returnDataUrl props
         then toDataURL env canvas "image/jpeg" (QArith_base.Qmake 95 100)
              = Rejected (ErrorObject message)
         else toBlob env canvas "image/jpeg" (QArith_base.Qmake 95 100)
              = Rejected (ErrorObject message)) ->
        emitted = report message).
Proof.
  intros Harea url attribute canvas report emitted.
  assert (Hthrow : forall e,
            CropDialog.createCroppedImage env props url area s = (Threw e, s) ->
            emitted
            = [CropDialog.CallToast (cropErrorToast e)]).
  { intros e He. unfold emitted.
    rewrite (handleSave_run env props s area Harea). fold url. rewrite He.
    simpl. apply drop_app_length. }
  split; [|split; [|split]].
  - intros Hload. apply (Hthrow NonError).
    unfold CropDialog.createCroppedImage, CropDialog.createImage, bindS.
    fold attribute. by rewrite Hload.
  - intros Hload Hctx. apply (Hthrow (ErrorObject "No 2d context")).
    unfold CropDialog.createCroppedImage, CropDialog.createImage, bindS.
    fold attribute. by rewrite Hload, Hctx.
  - intros Hload Hctx Hret Hblob.
    apply (Hthrow (ErrorObject "Canvas is empty")).
    unfold CropDialog.createCroppedImage, CropDialog.createImage, bindS.
    fold attribute. rewrite Hload, Hctx, Hret. simpl. fold canvas.
    by rewrite Hblob.
  - intros message Hload Hctx Henc.
    apply (Hthrow (ErrorObject message)).
    unfold CropDialog.createCroppedImage, CropDialog.createImage, bindS.
    fold attribute. rewrite Hload, Hctx. simpl. fold canvas.
    destruct (CropDialog.returnDataUrl props); by rewrite Henc.
Qed.

Lemma crop_error_messages_witness :
  CropDialog.croppedAreaPixels cropping = Some sampleArea
  /\ drop (length (CropDialog.calls cropping))
       (CropDialog.calls
          (CropDialog.handleSave emptyCanvasBrowser sampleDialogProps
             cropping).2)
     = [CropDialog.CallToast
          (mkToast "Crop Error" "Canvas is empty" (Some "destructive"))].
Proof.
  split; [reflexivity|].
  apply (proj1 (proj2 (proj2 (crop_error_messages emptyCanvasBrowser
                                sampleDialogProps cropping sampleArea
                                eq_refl)))); reflexivity.
Defined.

(** X16. When the crop is produced, [handleSave] hands it to
    [onCropComplete] once (a data URL with [returnDataUrl], a blob
    without), closes the dialog, puts the pan back to (0, 0) and the zoom
    to 1, shows one success toast and leaves [saving] false.  The crop area
    stays on record: opening the dialog again and saving without touching
    the cropper hands over the same crop a second time. *)
Theorem save_hands_over_the_crop env props s area croppedImage :
  CropDialog.croppedAreaPixels s = Some area ->
  CropDialog.createCroppedImage env props (CropDialog.imageUrl props) area s
  = (Returned croppedImage, s) ->
  CropDialog.handleSave env props s
  = (Returned tt,
     CropDialog.mkState false
       (Point.mk (QArith_base.Qmake 0 1) (QArith_base.Qmake 0 1))
       (QArith_base.Qmake 1 1) (Some area) false
       (CropDialog.calls s
        ++ [CropDialog.CallOnCropComplete croppedImage;
            CropDialog.CallToast cropSuccessToast]))
  /\ (if CropDialog.returnDataUrl props
      then exists dataUrl, croppedImage = inr dataUrl
      else exists blob, croppedImage = inl blob)
  /\ CropDialog.calls
       ((CropDialog.openDialog ;;; CropDialog.handleSave env props)%state
          (CropDialog.handleSave env props s).2).2
     = CropDialog.calls s
       ++ [CropDialog.CallOnCropComplete croppedImage;
           CropDialog.CallToast cropSuccessToast;
           CropDialog.CallOnCropComplete croppedImage;
           CropDialog.CallToast cropSuccessToast].
Proof.
  intros Harea Hcrop.
  pose proof (handleSave_run env props s area Harea) as Hrun.
  rewrite Hcrop in Hrun. rewrite Hrun. split; [done|]. split.
  - unfold CropDialog.createCroppedImage, CropDialog.createImage, bindS,
      retS, throwS in Hcrop.
    destruct (imageLoads env _ _); [|done].
    destruct (getContext2d env); simpl in Hcrop; [|done].
    destruct (CropDialog.returnDataUrl props).
    + destruct (toDataURL env _ _ _); [|done].
      injection Hcrop as <-. by eexists.
    + destruct (toBlob env _ _ _) as [[blob|]|]; [|done..].
      injection Hcrop as <-. by eexists.
  - cbn [snd]. unfold bindS at 1, CropDialog.openDialog, CropDialog.setOpen.
    cbn [CropDialog.open CropDialog.crop CropDialog.zoom
         CropDialog.croppedAreaPixels CropDialog.saving CropDialog.calls].
    erewrite (handleSave_run env props); [|reflexivity].
    rewrite (createCroppedImage_transfer env props _ area s _ _ Hcrop).
    cbn [snd CropDialog.calls]. by rewrite <- app_assoc.
Qed.

Lemma save_hands_over_the_crop_witness :
  CropDialog.croppedAreaPixels cropping = Some sampleArea
  /\ CropDialog.createCroppedImage sampleCanvasBrowser sampleDialogProps
       (CropDialog.imageUrl sampleDialogProps) sampleArea cropping
     = (Returned (inl (BlobOf "cropped")), cropping)
  /\ CropDialog.handleSave sampleCanvasBrowser sampleDialogProps cropping
     = (Returned tt,
        CropDialog.mkState false
          (Point.mk (QArith_base.Qmake 0 1) (QArith_base.Qmake 0 1))
          (QArith_base.Qmake 1 1) (Some sampleArea) false
          [CropDialog.CallOnCropComplete (inl (BlobOf "cropped"));
           CropDialog.CallToast cropSuccessToast]).
Proof.
  split; [reflexivity|]. split; [reflexivity|].
  exact (proj1 (save_hands_over_the_crop sampleCanvasBrowser sampleDialogProps
                  cropping sampleArea (inl (BlobOf "cropped"))
                  eq_refl eq_refl)).
Defined.

(** Without [returnDataUrl] a produced crop is a blob, handed over once. *)
Lemma save_hands_over_the_crop_blob env props s area croppedImage :
  CropDialog.croppedAreaPixels s = Some area ->
  CropDialog.createCroppedImage env props (CropDialog.imageUrl props) area s
  = (Returned croppedImage, s) ->
  CropDialog.returnDataUrl props = false ->
  exists blob,
    croppedImage = inl blob
    /\ CropDialog.handleSave env props s
       = (Returned tt,
          CropDialog.mkState false
            (Point.mk (QArith_base.Qmake 0 1) (QArith_base.Qmake 0 1))
            (QArith_base.Qmake 1 1) (Some area) false
            (CropDialog.calls s
             ++ [CropDialog.CallOnCropComplete (inl blob);
                 CropDialog.CallToast cropSuccessToast])).
Proof.
  intros Harea Hcrop Hret.
  pose proof (handleSave_run env props s area Harea) as Hrun.
  rewrite Hcrop in Hrun.
  unfold CropDialog.createCroppedImage, CropDialog.createImage, bindS,
    retS, throwS in Hcrop.
  destruct (imageLoads env _ _); [|done].
  destruct (getContext2d env); simpl in Hcrop; [|done].
  rewrite Hret in Hcrop.
  destruct (toBlob env _ _ _) as [[blob|]|]; [|done..].
  injection Hcrop as <-. by exists blob.
Qed.

(** X17. Saving a crop in the dialog of a card of the grid: the dialog
    produces a blob, reports success and closes.  When the URL of the crop
    is obtained (from the caller's [onCropComplete] or from the reader),
    [onChange] is called once with that card's record carrying the new
    URL.  When it is not (the caller's upload rejects, the blob cannot be
    read), the list stays as it is and nothing says so: the dialog has
    reported the success already and the promise of the handler is not
    awaited. *)
Theorem saving_a_crop_in_the_grid cenv env p index image d s area croppedImage :
  images p !! index = Some image ->
  CropDialog.croppedAreaPixels d = Some area ->
  CropDialog.createCroppedImage cenv (cardCropProps image index) (url image)
    area d = (Returned croppedImage, d) ->
  exists blob,
    croppedImage = inl blob
    /\ (saveInCard cenv env p index (d, s)).1 = Returned tt
    /\ (saveInCard cenv env p index (d, s)).2.1
       = CropDialog.mkState false
           (Point.mk (QArith_base.Qmake 0 1) (QArith_base.Qmake 0 1))
           (QArith_base.Qmake 1 1) (Some area) false
           (CropDialog.calls d
            ++ [CropDialog.CallOnCropComplete (inl blob);
                CropDialog.CallToast cropSuccessToast])
    /\ (forall newUrl,
          cropUrl env p (Some image) (inl blob) s = (Returned newUrl, s) ->
          (saveInCard cenv env p index (d, s)).2.2
          = logged [CallOnChange
                      (<[index := mkImageItem (id image) newUrl (file image)]>
                         (images p))] s)
    /\ ((forall newUrl,
           cropUrl env p (Some image) (inl blob) s <> (Returned newUrl, s)) ->
        (saveInCard cenv env p index (d, s)).2.2 = s).
Proof.
  intros Hx Harea Hcrop.
  destruct (save_hands_over_the_crop_blob cenv (cardCropProps image index) d
              area croppedImage Harea Hcrop eq_refl) as (blob & -> & Hrun).
  exists blob. split; [done|].
  unfold saveInCard. rewrite Hx. cbn [fst snd]. rewrite Hrun. cbn [fst snd].
  split; [done|]. split; [done|].
  cbn [CropDialog.calls]. rewrite drop_app_length.
  cbn [deliver]. unfold bind, unawaited, ret. cbn [fst snd].
  split.
  - intros newUrl Hurl.
    by rewrite (handleCropComplete_run env p s index image (inl blob) newUrl
                  Hx Hurl).
  - intros Hnone. unfold handleCropComplete, bind. rewrite Hx.
    pose proof (cropUrl_state env p (Some image) (inl blob) s) as Hs.
    destruct (cropUrl env p (Some image) (inl blob) s) as [o s'].
    simpl in Hs. subst s'.
    destruct o as [newUrl| | |]; [by destruct (Hnone newUrl)|done..].
Qed.

Lemma saving_a_crop_in_the_grid_witness :
  images rejectingCropProps !! 1%nat = Some itemB
  /\ CropDialog.croppedAreaPixels cropping = Some sampleArea
  /\ CropDialog.createCroppedImage sampleCanvasBrowser
       (cardCropProps itemB 1) (url itemB) sampleArea cropping
     = (Returned (inl (BlobOf "cropped")), cropping)
  /\ (saveInCard sampleCanvasBrowser sampleBrowser rejectingCropProps 1
        (cropping, mounted)).2.1
     = CropDialog.mkState false
         (Point.mk (QArith_base.Qmake 0 1) (QArith_base.Qmake 0 1))
         (QArith_base.Qmake 1 1) (Some sampleArea) false
         [CropDialog.CallOnCropComplete (inl (BlobOf "cropped"));
          CropDialog.CallToast cropSuccessToast]
  /\ (saveInCard sampleCanvasBrowser sampleBrowser rejectingCropProps 1
        (cropping, mounted)).2.2 = mounted.
Proof.
  split; [reflexivity|]. split; [reflexivity|]. split; [reflexivity|].
  destruct (saving_a_crop_in_the_grid sampleCanvasBrowser sampleBrowser
              rejectingCropProps 1 itemB cropping mounted sampleArea
              (inl (BlobOf "cropped")) eq_refl eq_refl eq_refl)
    as (blob & Hblob & _ & Hdialog & _ & Hsilent).
  injection Hblob as <-.
  split; [exact Hdialog|].
  apply Hsilent. intros newUrl H. vm_compute in H. discriminate H.
Defined.

(** ** The demo page *)

Lemma handleDrop_run env p files s :
  handleDrop env p files s
  = match files with
    | Some (_ :: _) => handleFiles env p files (setDragActive false s).2
    | _ => (Returned tt, (setDragActive false s).2)
    end.
Proof.
  unfold handleDrop, bind. cbn [setDragActive fst snd].
  by destruct files as [[|f fs]|].
Qed.

Lemma handleDrop_snapshot env p files s :
  snapshotAfter p (handleDrop env p files) s
  = match files with
    | Some (f :: fs) => ImageList.add env p (setDragActive false s).2 (f :: fs)
    | _ => images p
    end.
Proof.
  unfold ImageList.add, snapshotAfter, emittedBy. rewrite handleDrop_run.
  destruct files as [[|f fs]|]; cbn [setDragActive snd calls];
    [by rewrite drop_all|done|by rewrite drop_all].
Qed.

Lemma handleFileInput_snapshot env p files s :
  snapshotAfter p (handleFileInput env p files) s
  = match files with
    | Some fs => ImageList.add env p s fs
    | None => images p
    end.
Proof.
  destruct files as [fs|]; [done|].
  unfold snapshotAfter, emittedBy, handleFileInput. simpl.
  by rewrite drop_all.
Qed.

(** An intake gives every new record its file. *)
Lemma add_keeps_files env p s files :
  Forall (fun r => is_Some (file r)) (images p) ->
  Forall (fun r => is_Some (file r)) (ImageList.add env p s files).
Proof.
  intros Hall.
  destruct (add_cases env p s files) as [->|(records & -> & Hrec & _)];
    [done|].
  apply Forall_app. split; [done|].
  clear Hall. induction Hrec as [|f r fs rs [_ Hf] _ IH]; constructor; [|done].
  by rewrite Hf.
Qed.

(** The handler of the intake returns or throws. *)
Lemma handleFiles_outcome env p files s :
  (handleFiles env p files s).1 = Returned tt
  \/ exists e, (handleFiles env p files s).1 = Threw e.
Proof.
  destruct files as [[|f fs]|]; [by left| |by left].
  assert (Hne : f :: fs <> []) by done.
  generalize dependent (f :: fs). clear f fs. intros files Hne.
  destruct (Z_le_gt_dec (Z.of_nat (length (images p) + length files))
              (maxImages p)) as [Hfit|Hover].
  2:{ left. by rewrite handleFiles_over. }
  destruct (validateAll_cases p files [] [] s) as [[e He]|[errors He]].
  { right. exists e. by rewrite (handleFiles_thrown env p files e s). }
  simpl in He. left.
  destruct (List.filter (accepts p) files) as [|v vs] eqn:Hvalid.
  { by rewrite (handleFiles_validated env p files _ _ s Hne Hfit He). }
  destruct (resolves_or_fails env p (v :: vs)) as [Hall|Hex].
  - destruct (handleFiles_committed env p s files errors (v :: vs)
                Hfit He ltac:(done) Hall) as (records & -> & _).
    done.
  - destruct (handleFiles_abandoned env p s files errors (v :: vs)
                Hfit He Hex) as (? & ? & ? & e & _ & _ & _ & ->).
    done.
Qed.

(** Whatever the action on a card of the list, the list stays within the
    ceiling and its records keep their files. *)
Lemma action_keeps_invariants env p s a :
  offered (mkPage (images p) s) a = true ->
  Z.of_nat (length (images p)) <= maxImages p ->
  Forall (fun r => is_Some (file r)) (images p) ->
  Z.of_nat (length (snapshotAfter p (handlerOf env p a) s)) <= maxImages p
  /\ Forall (fun r => is_Some (file r)) (snapshotAfter p (handlerOf env p a) s).
Proof.
  intros Hoff Hlen Hall.
  pose proof (operations_keep_within_ceiling_lengths env p s Hlen)
    as (Hadd & Hremove & Hpromote & Hreorder & Hupdate).
  destruct a as [files|files|i|i|i blob|i j|]; cbn [handlerOf];
    cbn [offered pageImages] in Hoff.
  - rewrite handleFileInput_snapshot. destruct files as [fs|]; [|done].
    split; [apply Hadd|by apply add_keeps_files].
  - rewrite handleDrop_snapshot. destruct files as [[|f fs]|]; [done| |done].
    pose proof (operations_keep_within_ceiling_lengths env p
                  (setDragActive false s).2 Hlen) as (Hadd' & _).
    split; [apply Hadd'|by apply add_keeps_files].
  - fold (ImageList.remove p s i). split; [specialize (Hremove i); lia|].
    rewrite remove_delete. by apply Forall_delete.
  - fold (ImageList.promoteToCover p s i).
    apply andb_true_iff in Hoff as [_ Hi%Nat.ltb_lt].
    pose proof (lookup_lt_is_Some_2 _ _ Hi) as Hcard.
    split; [rewrite (Hpromote i Hcard); lia|]. rewrite promoteToCover_eq.
    destruct i as [|n]; [done|]. destruct Hcard as [x Hx]. rewrite Hx.
    by rewrite <- (delete_Permutation _ _ _ Hx).
  - fold (ImageList.updateOne env p s i (inl blob)).
    apply Nat.ltb_lt in Hoff.
    pose proof (lookup_lt_is_Some_2 _ _ Hoff) as Hcard.
    split; [rewrite (Hupdate i (inl blob) Hcard); lia|].
    destruct (updateOne_eq env p s i (inl blob))
      as [->|(image & newUrl & Hx & _ & ->)]; [done|].
    apply Forall_insert; [done|]. simpl.
    by apply (Forall_lookup_1 _ _ _ _ Hall Hx).
  - fold (ImageList.reorder p s i j).
    apply andb_true_iff in Hoff as [Hi%Nat.ltb_lt Hj%Nat.ltb_lt].
    pose proof (lookup_lt_is_Some_2 _ _ Hi) as Hcardi.
    pose proof (lookup_lt_is_Some_2 _ _ Hj) as Hcardj.
    split; [rewrite (Hreorder i j Hcardi Hcardj); lia|]. rewrite reorder_eq.
    destruct Hcardi as [x Hx]. rewrite Hx.
    destruct (enableReorder p); [|done].
    destruct (decide (i = j)); [done|].
    by rewrite (moved_Permutation i j x (images p) Hx).
  - by rewrite (snapshotAfter_calls p _ s []); [|simpl; rewrite app_nil_r].
Qed.

(** The controls that a rendered list offers never leave the typed
    model. *)
Lemma offered_handler_stays_typed env pg a :
  offered pg a = true ->
  (handlerOf env (pageProps (pageImages pg)) a (widget pg)).1 <> OutOfModel.
Proof.
  set (p := pageProps (pageImages pg)). set (s := widget pg).
  destruct a as [files|files|i|i|i blob|i j|]; cbn [offered handlerOf];
    intros Hoff.
  - unfold handleFileInput.
    by destruct (handleFiles_outcome env p files s) as [-> |[e ->]].
  - rewrite handleDrop_run. destruct files as [[|f fs]|]; [done| |done].
    by destruct (handleFiles_outcome env p (Some (f :: fs))
                   (setDragActive false s).2) as [-> |[e ->]].
  - by rewrite handleRemoveImage_run.
  - apply andb_true_iff in Hoff as [Hne Hlt].
    apply negb_true_iff, Nat.eqb_neq in Hne. apply Nat.ltb_lt in Hlt.
    destruct (lookup_lt_is_Some_2 (images p) i Hlt) as [x Hx].
    by rewrite (handleSetAsCover_run p i x s Hne Hx).
  - apply Nat.ltb_lt in Hoff.
    destruct (lookup_lt_is_Some_2 (images p) i Hoff) as [x Hx].
    unfold handleCropComplete, bind. rewrite Hx.
    pose proof (cropUrl_state env p (Some x) (inl blob) s) as Hs.
    destruct (cropUrl env p (Some x) (inl blob) s) as [o s'] eqn:Hurl.
    destruct o as [newUrl| | |]; [done..|].
    unfold cropUrl in Hurl. simpl in Hurl.
    by destruct (readBlobAsDataURL env blob).
  - apply andb_true_iff in Hoff as [Hi Hj]. apply Nat.ltb_lt in Hi.
    destruct (lookup_lt_is_Some_2 (images p) i Hi) as [x Hx].
    unfold ImageList.drag, handleDragStart, handleDragOver, bind, getState.
    cbn [enableReorder p pageProps negb setDraggedIndex draggedIndex
         is_Some orb fst snd].
    simpl.
    destruct (decide (i = j)) as [->|Hne].
    + rewrite handleDragEnd_noop; [done|]. by do 3 right.
    + by rewrite (handleDragEnd_run p _ i j x).
  - done.
Qed.

(** X18. On the demo page, whatever the user does with what the page
    offers (picking and dropping files, removing, promoting, cropping and
    dragging cards, resetting), the list never holds more than 10 images,
    every image in it has its file, and no handler is ever run on an index
    that has no card. *)
Theorem page_invariants env pg :
  Reachable env pg ->
  (length (pageImages pg) <= 10)%nat
  /\ Forall (fun r => is_Some (file r)) (pageImages pg)
  /\ (forall a, offered pg a = true ->
        (handlerOf env (pageProps (pageImages pg)) a (widget pg)).1
        <> OutOfModel).
Proof.
  intros Hreach.
  assert (Hinv : (length (pageImages pg) <= 10)%nat
                 /\ Forall (fun r => is_Some (file r)) (pageImages pg)).
  { induction Hreach as [|pg a _ [Hlen Hall] Hoff]; [by split; [simpl; lia|]|].
    destruct (action_keeps_invariants env (pageProps (pageImages pg))
                (widget pg) a Hoff ltac:(simpl; lia) Hall) as [Hlen' Hall'].
    simpl in Hlen'.
    destruct a; cbn [act pageImages]; (split; [lia|done]) || (by split; [simpl; lia|]). }
  destruct Hinv as [Hlen Hall]. split; [done|]. split; [done|].
  intros a. apply offered_handler_stays_typed.
Qed.

Lemma page_invariants_witness :
  Reachable sampleBrowser
    (act sampleBrowser
       (act sampleBrowser (mkPage [] mounted)
          (SelectFiles (Some [photoA; notes; photoB])))
       (PromoteCard 1))
  /\ pageImages
       (act sampleBrowser
          (act sampleBrowser (mkPage [] mounted)
             (SelectFiles (Some [photoA; notes; photoB])))
          (PromoteCard 1))
     = [mkImageItem "img_1700000000001_4fzyo82mv"
          "data:image/jpeg;base64,AAAA" (Some photoB);
        mkImageItem "img_1700000000000_4fzyo82mv"
          "data:image/jpeg;base64,AAAA" (Some photoA)]
  /\ Forall (fun r => is_Some (file r))
       (pageImages
          (act sampleBrowser
             (act sampleBrowser (mkPage [] mounted)
                (SelectFiles (Some [photoA; notes; photoB])))
             (PromoteCard 1))).
Proof.
  assert (Hreach : Reachable sampleBrowser
            (act sampleBrowser
               (act sampleBrowser (mkPage [] mounted)
                  (SelectFiles (Some [photoA; notes; photoB])))
               (PromoteCard 1))).
  { apply reach_act; [apply reach_act; [apply reach_fresh|reflexivity]|].
    reflexivity. }
  split; [exact Hreach|]. split; [reflexivity|].
  exact (proj1 (proj2 (page_invariants sampleBrowser _ Hreach))).
Defined.

(** ** Local images and the cross-origin attribute *)

(** X19. Images taken in without [onUpload] are never requested
    cross-origin by the crop dialog: when the reader yields data URLs, every
    record that an intake adds has a URL for which [createImage] sets no
    [crossOrigin] attribute. *)
Theorem local_images_load_without_cors cenv env p s files r :
  onUpload p = None ->
  (forall f dataUrl,
     readFileAsDataURL env f = Some dataUrl ->
     String.prefix "data:" dataUrl = true) ->
  r ∈ ImageList.add env p s files -> r ∉ images p ->
  CropDialog.externalUrl cenv (url r) = false
  /\ (CropDialog.createImage cenv (url r) CropDialog.mounted).1
     = (if imageLoads cenv (url r) None
        then Returned (mkImage (url r) None) else Threw NonError).
Proof.
  intros Hup Hdata Hin Hnew.
  assert (Hurl : String.prefix "data:" (url r) = true).
  { destruct (add_cases env p s files) as [Heq|(records & Heq & Hrec & _)];
      rewrite Heq in Hin; [done|].
    apply elem_of_app in Hin as [Hin|Hin]; [done|].
    apply list_elem_of_lookup in Hin as [i Hi].
    destruct (Forall2_lookup_r _ _ _ _ _ Hrec Hi) as (f & _ & Hres & _).
    unfold resolution in Hres. rewrite Hup in Hres.
    destruct (readFileAsDataURL env f) as [dataUrl|] eqn:Hread; [|done].
    injection Hres as <-. by apply (Hdata f). }
  assert (Hext : CropDialog.externalUrl cenv (url r) = false).
  { unfold CropDialog.externalUrl. rewrite Hurl. simpl.
    by rewrite andb_false_r. }
  split; [done|].
  unfold CropDialog.createImage. rewrite Hext.
  by destruct (imageLoads cenv (url r) None).
Qed.

Lemma local_images_load_without_cors_witness :
  onUpload (defaultProps [itemA]) = None
  /\ (forall f dataUrl,
        readFileAsDataURL sampleBrowser f = Some dataUrl ->
        String.prefix "data:" dataUrl = true)
  /\ mkImageItem "img_1700000000000_4fzyo82mv" "data:image/jpeg;base64,AAAA"
       (Some photoA)
     ∈ ImageList.add sampleBrowser (defaultProps [itemA]) mounted [photoA]
  /\ (mkImageItem "img_1700000000000_4fzyo82mv" "data:image/jpeg;base64,AAAA"
        (Some photoA)
      ∉ images (defaultProps [itemA]))
  /\ CropDialog.externalUrl sampleCanvasBrowser "data:image/jpeg;base64,AAAA"
     = false.
Proof.
  assert (Hdata : forall f dataUrl,
            readFileAsDataURL sampleBrowser f = Some dataUrl ->
            String.prefix "data:" dataUrl = true).
  { intros f dataUrl [= <-]. simpl. by destruct (_ +:+ _). }
  assert (Hin : mkImageItem "img_1700000000000_4fzyo82mv"
                  "data:image/jpeg;base64,AAAA" (Some photoA)
                ∈ ImageList.add sampleBrowser (defaultProps [itemA]) mounted
                    [photoA]).
  { apply list_elem_of_further, list_elem_of_here. }
  assert (Hnew : mkImageItem "img_1700000000000_4fzyo82mv"
                   "data:image/jpeg;base64,AAAA" (Some photoA)
                 ∉ images (defaultProps [itemA])).
  { apply (bool_decide_unpack _). vm_compute. exact I. }
  split; [reflexivity|]. split; [exact Hdata|]. split; [exact Hin|].
  split; [exact Hnew|].
  apply (proj1 (local_images_load_without_cors sampleCanvasBrowser
                  sampleBrowser (defaultProps [itemA]) mounted [photoA] _
                  eq_refl Hdata Hin Hnew)).
Defined.

(** ** The size limit as it is announced *)

(** X20. The limit named in the size message is [maxFileSize] rounded to
    whole MiB, not the limit that is applied: a file of an allowed type
    that is larger than [maxFileSize] is rejected even when it is no larger
    than the maximum its message names. *)
Theorem announced_limit_is_rounded p s f :
  0 <= maxFileSize p ->
  type f ∈ allowedTypes p ->
  maxFileSize p < size f <=
    (2 * maxFileSize p + 1024 * 1024) / (2 * (1024 * 1024)) * (1024 * 1024) ->
  validateFile p f s
  = (Returned
       (Some ("File " +:+ name f +:+ ": exceeds size limit. Maximum "
              +:+ Js.ofNumber
                    ((2 * maxFileSize p + 1024 * 1024) / (2 * (1024 * 1024)))
              +:+ "MB")), s).
Proof.
  intros Hpos Hin [Hover _]. unfold validateFile, Js.includes.
  rewrite bool_decide_true by done. simpl negb. cbv iota.
  rewrite (proj2 (Z.gtb_gt _ _)) by lia.
  unfold Js.toFixed0.
  by replace (maxFileSize p <? 0) with false by (symmetry; apply Z.ltb_ge; lia).
Qed.

Lemma announced_limit_is_rounded_witness :
  0 <= maxFileSize (mkProps [] 10 DEFAULT_ALLOWED_TYPES 1572864 true None None)
  /\ "image/png" ∈ DEFAULT_ALLOWED_TYPES
  /\ 1572864 < 1900000 <= 2 * (1024 * 1024)
  /\ validateFile (mkProps [] 10 DEFAULT_ALLOWED_TYPES 1572864 true None None)
       (mkFile "large.png" "image/png" 1900000) mounted
     = (Returned
          (Some "File large.png: exceeds size limit. Maximum 2MB"), mounted).
Proof.
  split; [vm_compute; discriminate|].
  split; [apply (bool_decide_unpack _); vm_compute; exact I|].
  split; [split; [reflexivity|vm_compute; discriminate]|].
  apply (announced_limit_is_rounded
           (mkProps [] 10 DEFAULT_ALLOWED_TYPES 1572864 true None None)
           mounted (mkFile "large.png" "image/png" 1900000)).
  - vm_compute. discriminate.
  - apply (bool_decide_unpack _). vm_compute. exact I.
  - split; [reflexivity|vm_compute; discriminate].
Defined.
